(** * fps-monitor-overlay: the sample pipeline, embedded and verified

    A shallow embedding of the core classes of the overlay,
    - [RingBuffer<T, N>]  (src/core/ring_buffer.h),
    - [FpsCalculator]      (fps_calculator.h, fps_calculator.cpp),
    - [StatsTracker]       (stats_tracker.h, stats_tracker.cpp),
    - [DropDetector]       (src/core/drop_detector.h, drop_detector.cpp),
    of the timer and the frame loop that feed them, and of the readers
    of the configuration and of the game detector, together with the
    properties the specification states about them.

    Conventions of the embedding.
    - [size_t] values are integers in [Z]; every arithmetic operation the
      source performs on them is followed by the reduction modulo 2^64
      ([size_t]).
    - [double] values are embedded twice.
      The module [Binary64] takes them bit for bit: IEEE 754 binary64
      numbers, with signed zeros, infinities and NaN, and the operations
      of the standard library's specification of floating-point
      arithmetic, each result rounded to the nearest double, ties to
      even. The classes restated on it ([FpsCalculator64],
      [StatsTracker64], [DropDetector64]) carry the properties that say
      what a computation returns: the rolling mean, the percentiles and
      the drop test.
      The exact embedding takes a double for the rational it denotes
      ([Q]); rounding, infinities and NaN are outside it, and equality
      is numeric equality ([==]). It carries the properties that rest on
      comparisons, clamping, integer arithmetic and the order of the
      calls: bounds that rounding to nearest cannot cross, and the shape
      of the buffers and of the histories. No path of the embedded
      functions divides by zero there (the divisors are a positive
      delta, a positive sample count, or an average of at least 10).
    - A C++ member function that mutates [*this] takes the object and
      returns the new object; one that may throw returns a [result].
      Every member function of the ring buffer holds its mutex from
      entry to exit, so the calls are atomic and the model is sequential.
    - [std::chrono::steady_clock::now()] is an explicit argument [now],
      a time point counted in nanoseconds.
    - The callback of the drop detector is an effect on the outside:
      [update] returns, next to the new object, the list of events it
      passed to the callback. *)

From Stdlib Require Import ZArith QArith Qround Lia Lqa Sorted Permutation.
From stdpp Require Import base list.

#[local] Open Scope Z_scope.

(** ** Machine integers and exceptions *)

Definition SIZE_WIDTH : Z := 64.

(** Reduction of an integer to the range of [size_t]. *)
Definition size_t (x : Z) : Z := x mod 2 ^ SIZE_WIDTH.

(** The value range of a [size_t] argument. *)
Definition is_size_t (x : Z) : Prop := 0 <= x < 2 ^ SIZE_WIDTH.

(** The two standard exceptions the ring buffer throws. *)
Inductive exception : Type :=
| out_of_range     (* std::out_of_range("RingBuffer index out of range") *)
| runtime_error.   (* std::runtime_error("RingBuffer is empty") *)

Inductive result (A : Type) : Type :=
| Ok (a : A)
| Throw (e : exception).
Arguments Ok {A} a.
Arguments Throw {A} e.

(** ** RingBuffer<T, N> *)

Module RingBuffer.
Section RingBuffer.
Context {T : Type}.
(** [T()], the value [m_buffer.resize(N)] fills the storage with. *)
Variable T0 : T.
(** The template parameter [N]. *)
Variable N : Z.

Record t : Type := mk {
  m_buffer : list T;   (* std::vector<T>, resized to N once *)
  m_head   : Z;        (* index of next write position *)
  m_size   : Z         (* current number of elements *)
}.

(** [m_buffer[i]] for a [size_t] index. *)
Definition at_ (buf : list T) (i : Z) : T := default T0 (buf !! Z.to_nat i).

(** [RingBuffer()] *)
Definition create : t :=
  {| m_buffer := replicate (Z.to_nat N) T0; m_head := 0; m_size := 0 |}.

(** [void push(const T& value)] *)
Definition push (value : T) (b : t) : t :=
  {| m_buffer := <[Z.to_nat (m_head b) := value]> (m_buffer b);
     m_head   := size_t (m_head b + 1) mod N;
     m_size   := if m_size b <? N then size_t (m_size b + 1) else m_size b |}.

(** [(m_head + N - m_size + index) % N], evaluated left to right. *)
Definition actualIndex (b : t) (index : Z) : Z :=
  size_t (size_t (size_t (m_head b + N) - m_size b) + index) mod N.

(** [T get(size_t index) const] *)
Definition get (index : Z) (b : t) : result T :=
  if index >=? m_size b then Throw out_of_range
  else Ok (at_ (m_buffer b) (actualIndex b index)).

(** [T latest() const] *)
Definition latest (b : t) : result T :=
  if m_size b =? 0 then Throw runtime_error
  else Ok (at_ (m_buffer b) (size_t (size_t (m_head b + N) - 1) mod N)).

(** The loop of [getAll]: [for (size_t i = 0; i < m_size; ++i)]. The
    fuel bounds the number of iterations; [getAll] supplies [m_size]. *)
Fixpoint getAll_loop (fuel : nat) (i : Z) (b : t) (res : list T) : list T :=
  match fuel with
  | O => res
  | S fuel' =>
      if i <? m_size b
      then getAll_loop fuel' (size_t (i + 1)) b
             (res ++ [at_ (m_buffer b) (actualIndex b i)])
      else res
  end.

(** [std::vector<T> getAll() const] *)
Definition getAll (b : t) : list T :=
  getAll_loop (Z.to_nat (m_size b)) 0 b [].

Definition size (b : t) : Z := m_size b.
Definition capacity (_ : t) : Z := N.
Definition isFull (b : t) : bool := m_size b =? N.
Definition isEmpty (b : t) : bool := m_size b =? 0.

(** [void clear()] *)
Definition clear (b : t) : t :=
  {| m_buffer := m_buffer b; m_head := 0; m_size := 0 |}.

(** *** Histories of calls and the samples they should retain *)

Inductive op : Type :=
| Push (value : T)
| Clear.

Definition step (b : t) (o : op) : t :=
  match o with
  | Push v => push v b
  | Clear => clear b
  end.

(** The buffer after a history of calls on a fresh object. *)
Definition run ops : t := fold_left step ops create.

(** The specification's view of the History Buffer: a queue that keeps
    the last [N] samples, oldest first. *)
Definition keep_last l : list T :=
  drop (length l - Z.to_nat N) l.

Definition retained_step (l : list T) (o : op) : list T :=
  match o with
  | Push v => keep_last (l ++ [v])
  | Clear => []
  end.

Definition retained ops : list T := fold_left retained_step ops [].

(** The representation invariant linking the circular storage to the
    retained samples. *)
Record Rep b l : Prop := {
  rep_len   : length (m_buffer b) = Z.to_nat N;
  rep_head  : 0 <= m_head b < N;
  rep_size  : m_size b = Z.of_nat (length l);
  rep_bound : Z.of_nat (length l) <= N;
  rep_slots : forall i : nat, (i < length l)%nat ->
      m_buffer b !! Z.to_nat ((m_head b + N - m_size b + Z.of_nat i) mod N)
      = l !! i
}.

End RingBuffer.
Arguments t T : clear implicits.
Arguments op T : clear implicits.
End RingBuffer.

(** ** Doubles, as the rationals they denote, and clocks *)

(** The exact embedding: the functions below, and the classes built on
    them, compute without rounding. What is stated on them holds of the
    rounded computation too, as it rests on comparisons and on bounds
    that rounding to nearest keeps; what a computation returns, digit
    for digit, is stated on [Binary64] further down. *)

(** The comparisons of two doubles, as booleans. *)
Definition double_lt (a b : Q) : bool :=
  (Qnum a * QDen b <? Qnum b * QDen a).
Definition double_le (a b : Q) : bool := Qle_bool a b.
Definition double_ge (a b : Q) : bool := Qle_bool b a.

(** [std::min(a, b)] is [(b < a) ? b : a] and [std::max(a, b)] is
    [(a < b) ? b : a]. *)
Definition std_min (a b : Q) : Q := if double_lt b a then b else a.
Definition std_max (a b : Q) : Q := if double_lt a b then b else a.
Definition std_min_size_t (a b : Z) : Z := if b <? a then b else a.

(** [std::accumulate(first, last, init)] on doubles. *)
Definition accumulate (l : list Q) (init : Q) : Q := fold_left Qplus l init.



(** [std::floor] and [std::ceil] return doubles with integer values. *)
Definition std_floor (x : Q) : Q := inject_Z (Qfloor x).
Definition std_ceil (x : Q) : Q := inject_Z (Qceiling x).

(** [static_cast<size_t>(x)] drops the fractional part; the conversion
    is defined by C++ only when the result fits, and the model wraps. *)
Definition size_t_of_double (x : Q) : Z :=
  size_t (if double_lt x 0 then Qceiling x else Qfloor x).

(** [static_cast<double>(n)] for a [size_t]. *)
Definition double_of_size_t (n : Z) : Q := inject_Z n.

(** [v[i]] on a [std::vector<double>]. *)
Definition vector_at (v : list Q) (i : Z) : Q := default 0%Q (v !! Z.to_nat i).

(** A [steady_clock::time_point] counts nanoseconds. *)
Definition time_point : Type := Z.
Bind Scope Z_scope with time_point.
Definition NANOS_PER_SECOND : Z := 1000000000.
Definition NANOS_PER_MILLI : Z := 1000000.

(** [std::chrono::duration<double>(b - a).count()], in seconds. *)
Definition seconds_between (a b : time_point) : Q :=
  (inject_Z (b - a) / inject_Z NANOS_PER_SECOND)%Q.

(** [duration_cast<milliseconds>(b - a).count()], rounding to zero. *)
Definition millis_between (a b : time_point) : Z :=
  Z.quot (b - a) NANOS_PER_MILLI.

(** ** FpsCalculator *)

Module FpsCalculator.

Definition MAX_HISTORY : Z := 600.
Definition MAX_FPS : Q := 1000.

Record t : Type := mk {
  m_samples     : RingBuffer.t Q;   (* RingBuffer<double, MAX_HISTORY> *)
  m_currentFPS  : Q;
  m_averageFPS  : Q;
  m_historySize : Z                 (* configured history size *)
}.

(** [FpsCalculator(size_t historySize)] *)
Definition create (historySize : Z) : t :=
  {| m_samples := RingBuffer.create 0%Q MAX_HISTORY;
     m_currentFPS := 0;
     m_averageFPS := 0;
     m_historySize := std_min_size_t historySize MAX_HISTORY |}.

(** [double calculateAverage() const] *)
Definition calculateAverage (c : t) : Q :=
  let samples := RingBuffer.getAll 0%Q MAX_HISTORY (m_samples c) in
  match samples with
  | [] => 0%Q
  | _ =>
      let sum := accumulate samples 0 in
      (sum / double_of_size_t (Z.of_nat (length samples)))%Q
  end.

(** [void update(double deltaTime)] *)
Definition update (deltaTime : Q) (c : t) : t :=
  if double_le deltaTime 0 then c
  else
    let fps := (1 / deltaTime)%Q in
    let fps := std_max 0 (std_min fps MAX_FPS) in
    let c1 := {| m_samples := RingBuffer.push MAX_HISTORY fps (m_samples c);
                 m_currentFPS := fps;
                 m_averageFPS := m_averageFPS c;
                 m_historySize := m_historySize c |} in
    {| m_samples := m_samples c1;
       m_currentFPS := m_currentFPS c1;
       m_averageFPS := calculateAverage c1;
       m_historySize := m_historySize c1 |}.

Definition getCurrentFPS (c : t) : Q := m_currentFPS c.
Definition getAverageFPS (c : t) : Q := m_averageFPS c.
Definition getSamples (c : t) : list Q :=
  RingBuffer.getAll 0%Q MAX_HISTORY (m_samples c).
Definition getSampleCount (c : t) : Z := RingBuffer.size (m_samples c).

(** [void reset()] *)
Definition reset (c : t) : t :=
  {| m_samples := RingBuffer.clear (m_samples c);
     m_currentFPS := 0;
     m_averageFPS := 0;
     m_historySize := m_historySize c |}.

(** The sample one successful update stores. *)
Definition rate_of (deltaTime : Q) : Q :=
  std_max 0 (std_min (1 / deltaTime)%Q MAX_FPS).

(** The calls that change a calculator, and the calculator they lead to
    from a construction. *)
Inductive call : Type :=
| Update (deltaTime : Q)
| Reset.

Definition step (c : t) (k : call) : t :=
  match k with
  | Update deltaTime => update deltaTime c
  | Reset => reset c
  end.

Definition run (historySize : Z) (calls : list call) : t :=
  fold_left step calls (create historySize).

(** The samples the specification says the window holds after these
    calls: each positive delta contributes its clamped rate, a
    non-positive one nothing, only the last [MAX_HISTORY] samples are
    kept, and a reset empties the window. *)
Definition window_step (l : list Q) (k : call) : list Q :=
  match k with
  | Update deltaTime =>
      if double_le deltaTime 0 then l
      else RingBuffer.keep_last MAX_HISTORY (l ++ [rate_of deltaTime])
  | Reset => []
  end.

Definition window (calls : list call) : list Q := fold_left window_step calls [].

(** The circular storage of the calculator represents the window. *)
Definition Inv (c : t) (l : list Q) : Prop :=
  RingBuffer.Rep MAX_HISTORY (m_samples c) l.

End FpsCalculator.

(** ** StatsTracker *)

Module StatsTracker.

Record Stats : Type := mkStats {
  average      : Q;
  min          : Q;
  max          : Q;
  percentile01 : Q;
  percentile1  : Q
}.

Record t : Type := mk {
  m_stats          : Stats;
  m_lastUpdate     : time_point;
  m_updateInterval : Z            (* std::chrono::milliseconds *)
}.

Definition zero_stats : Stats := mkStats 0 0 0 0 0.

(** [StatsTracker(int updateIntervalMs)] *)
Definition create (now : time_point) (updateIntervalMs : Z) : t :=
  {| m_stats := zero_stats; m_lastUpdate := now;
     m_updateInterval := updateIntervalMs |}.

(** [std::sort] on doubles, ascending. *)
Fixpoint sort_insert (x : Q) (l : list Q) : list Q :=
  match l with
  | [] => [x]
  | y :: l' => if double_lt y x then y :: sort_insert x l' else x :: l
  end.

Definition std_sort (l : list Q) : list Q := foldr sort_insert [] l.

(** [double calculatePercentile(const std::vector<double>&, double) const] *)
Definition calculatePercentile (sortedSamples : list Q) (percentile : Q) : Q :=
  let size := Z.of_nat (length sortedSamples) in
  if size =? 0 then 0%Q
  else if size =? 1 then vector_at sortedSamples 0
  else
    let index := (percentile * double_of_size_t (size_t (size - 1)))%Q in
    let lowerIndex := size_t_of_double (std_floor index) in
    let upperIndex := size_t_of_double (std_ceil index) in
    let lowerIndex := std_min_size_t lowerIndex (size_t (size - 1)) in
    let upperIndex := std_min_size_t upperIndex (size_t (size - 1)) in
    if lowerIndex =? upperIndex then vector_at sortedSamples lowerIndex
    else
      let weight := (index - double_of_size_t lowerIndex)%Q in
      (vector_at sortedSamples lowerIndex * (1 - weight)
       + vector_at sortedSamples upperIndex * weight)%Q.

(** [void calculateStats(const std::vector<double>& samples)] *)
Definition calculateStats (samples : list Q) (s : t) : t :=
  match samples with
  | [] => {| m_stats := zero_stats; m_lastUpdate := m_lastUpdate s;
             m_updateInterval := m_updateInterval s |}
  | _ =>
      let sorted := std_sort samples in
      let size := Z.of_nat (length sorted) in
      {| m_stats :=
           {| min := vector_at sorted 0;
              max := vector_at sorted (size_t (size - 1));
              average := (accumulate sorted 0 / double_of_size_t size)%Q;
              percentile01 := calculatePercentile sorted (1 # 1000);
              percentile1 := calculatePercentile sorted (1 # 100) |};
         m_lastUpdate := m_lastUpdate s;
         m_updateInterval := m_updateInterval s |}
  end.

(** [void update(const std::vector<double>& samples)] *)
Definition update (now : time_point) (samples : list Q) (s : t) : t :=
  let elapsed := millis_between (m_lastUpdate s) now in
  if elapsed >=? m_updateInterval s then
    let s1 := calculateStats samples s in
    {| m_stats := m_stats s1; m_lastUpdate := now;
       m_updateInterval := m_updateInterval s1 |}
  else s.

Definition getStats (s : t) : Stats := m_stats s.

(** [void reset()] *)
Definition reset (now : time_point) (s : t) : t :=
  {| m_stats := zero_stats; m_lastUpdate := now;
     m_updateInterval := m_updateInterval s |}.

(** The specification's percentile, written from its words: the real
    index [p * (n - 1)], its floor and ceiling clamped to [0, n - 1], and
    the linear interpolation between the two samples there. *)
Definition clamp_index (n i : Z) : Z := Z.max 0 (Z.min i (n - 1)).

Definition lerp (a b w : Q) : Q := (a + (b - a) * w)%Q.

Definition percentile_spec (sorted : list Q) (p : Q) : Q :=
  match sorted with
  | [] => 0%Q
  | [x] => x
  | _ =>
      let n := Z.of_nat (length sorted) in
      let idx := (p * inject_Z (n - 1))%Q in
      let lo := clamp_index n (Qfloor idx) in
      let hi := clamp_index n (Qceiling idx) in
      lerp (vector_at sorted lo) (vector_at sorted hi) (idx - inject_Z lo)
  end.

End StatsTracker.

(** ** DropDetector *)

Module DropDetector.

Record Drop : Type := mkDrop {
  timestamp  : time_point;
  averageFPS : Q;
  currentFPS : Q;
  magnitude  : Q
}.

Definition DEBOUNCE_SECONDS : Q := 1 # 2.
Definition MAX_DROP_HISTORY : Z := 100.

Record t : Type := mk {
  m_thresholdPercent : Q;
  m_drops            : list Drop;
  m_callback         : bool;        (* is a callback registered? *)
  m_lastDrop         : time_point
}.

(** [DropDetector(double thresholdPercent)] *)
Definition create (now : time_point) (thresholdPercent : Q) : t :=
  {| m_thresholdPercent := thresholdPercent; m_drops := [];
     m_callback := false; m_lastDrop := now |}.

(** [bool checkForDrop(double currentFPS, double averageFPS) const] *)
Definition checkForDrop (currentFPS averageFPS : Q) (d : t) : bool :=
  if double_lt averageFPS 10 then false
  else
    let dropPercent := ((averageFPS - currentFPS) / averageFPS * 100)%Q in
    double_ge dropPercent (m_thresholdPercent d).

(** [void update(double currentFPS, double averageFPS)]. The second
    component lists the calls made to the registered callback. *)
Definition update (now : time_point) (currentFPS averageFPS : Q) (d : t)
  : t * list Drop :=
  if checkForDrop currentFPS averageFPS d then
    let elapsed := seconds_between (m_lastDrop d) now in
    if double_ge elapsed DEBOUNCE_SECONDS then
      let drop := {| timestamp := now;
                     averageFPS := averageFPS;
                     currentFPS := currentFPS;
                     magnitude := ((averageFPS - currentFPS) / averageFPS)%Q |} in
      let drops := m_drops d ++ [drop] in
      let drops := if Z.of_nat (length drops) >? MAX_DROP_HISTORY
                   then tail drops else drops in
      ({| m_thresholdPercent := m_thresholdPercent d;
          m_drops := drops;
          m_callback := m_callback d;
          m_lastDrop := now |},
       if m_callback d then [drop] else [])
    else (d, [])
  else (d, []).

Definition getDrops (d : t) : list Drop := m_drops d.


(** [void setThreshold(double thresholdPercent)] *)
Definition setThreshold (thresholdPercent : Q) (d : t) : t :=
  {| m_thresholdPercent := std_max 5 (std_min thresholdPercent 50);
     m_drops := m_drops d;
     m_callback := m_callback d;
     m_lastDrop := m_lastDrop d |}.

Definition getThreshold (d : t) : Q := m_thresholdPercent d.

(** [void setDropCallback(DropCallback callback)] *)
Definition setDropCallback (registered : bool) (d : t) : t :=
  {| m_thresholdPercent := m_thresholdPercent d;
     m_drops := m_drops d;
     m_callback := registered;
     m_lastDrop := m_lastDrop d |}.

(** [void clearHistory()] *)
Definition clearHistory (d : t) : t :=
  {| m_thresholdPercent := m_thresholdPercent d;
     m_drops := [];
     m_callback := m_callback d;
     m_lastDrop := m_lastDrop d |}.

(** The history after an event is appended: past [MAX_DROP_HISTORY]
    entries the oldest one is erased. *)
Definition limit_history (drops : list Drop) : list Drop :=
  if Z.of_nat (length drops) >? MAX_DROP_HISTORY then tail drops else drops.

(** The event [update] builds from its arguments. *)
Definition event (now : time_point) (currentFPS averageFPS : Q) : Drop :=
  {| timestamp := now;
     averageFPS := averageFPS;
     currentFPS := currentFPS;
     magnitude := ((averageFPS - currentFPS) / averageFPS)%Q |}.

(** The calls a client can make on a detector, and the states they
    lead to from a construction. *)
Inductive call : Type :=
| Update (now : time_point) (currentFPS averageFPS : Q)
| SetThreshold (thresholdPercent : Q)
| SetDropCallback (registered : bool)
| ClearHistory.

Definition step (d : t) (c : call) : t :=
  match c with
  | Update now cur avg => fst (update now cur avg d)
  | SetThreshold p => setThreshold p d
  | SetDropCallback r => setDropCallback r d
  | ClearHistory => clearHistory d
  end.

Definition run (now : time_point) (thresholdPercent : Q) (calls : list call) : t :=
  fold_left step calls (create now thresholdPercent).

End DropDetector.

(** ** The history and the callback of a detector over many calls *)

Module DropHistory.
Import DropDetector.

(** The second event comes at least a debounce interval after the first. *)
Definition spaced (e1 e2 : Drop) : Prop :=
  (DEBOUNCE_SECONDS <= seconds_between (timestamp e1) (timestamp e2))%Q.

(** The events one call passes to the callback. *)
Definition calls_back (d : t) (c : call) : list Drop :=
  match c with
  | Update now cur avg => snd (update now cur avg d)
  | _ => []
  end.

(** All the events a list of calls passes to the callback, in order. *)
Fixpoint callbacks (d : t) (calls : list call) : list Drop :=
  match calls with
  | [] => []
  | c :: calls' => calls_back d c ++ callbacks (step d c) calls'
  end.

(** Calls that neither clear the history nor replace the callback. *)
Definition is_update_or_threshold (c : call) : bool :=
  match c with
  | Update _ _ _ | SetThreshold _ => true
  | SetDropCallback _ | ClearHistory => false
  end.

Definition is_not_setThreshold (c : call) : bool :=
  match c with
  | SetThreshold _ => false
  | _ => true
  end.


End DropHistory.

(** ** Timer (src/utils/timer.h, timer.cpp) *)

Module Timer.

(** A [LONGLONG] result, in two's complement. *)
Definition int64 (x : Z) : Z := (x + 2 ^ 63) mod 2 ^ 64 - 2 ^ 63.

(** The range of a performance counter reading. *)
Definition is_counter (x : Z) : Prop := 0 <= x < 2 ^ 63.

Record t : Type := mk {
  m_frequency : Z;   (* QueryPerformanceFrequency result *)
  m_startTime : Z;   (* timer start timestamp *)
  m_lastTime  : Z    (* last getDeltaTime() timestamp *)
}.

(** [void start()]; [counter] is what [QueryPerformanceCounter] reads. *)
Definition start (counter : Z) (tm : t) : t :=
  {| m_frequency := m_frequency tm;
     m_startTime := counter;
     m_lastTime := counter |}.

(** [Timer()]; [frequency] is what [QueryPerformanceFrequency] reads. *)
Definition create (frequency counter : Z) : t :=
  {| m_frequency := frequency; m_startTime := counter; m_lastTime := counter |}.

(** [void reset()] *)
Definition reset (counter : Z) (tm : t) : t := start counter tm.

(** [double getDeltaTime()] *)
Definition getDeltaTime (currentTime : Z) (tm : t) : Q * t :=
  ((inject_Z (int64 (currentTime - m_lastTime tm))
    / inject_Z (m_frequency tm))%Q,
   {| m_frequency := m_frequency tm;
      m_startTime := m_startTime tm;
      m_lastTime := currentTime |}).

(** [double getElapsedTime() const] *)
Definition getElapsedTime (currentTime : Z) (tm : t) : Q :=
  (inject_Z (int64 (currentTime - m_startTime tm))
   / inject_Z (m_frequency tm))%Q.

(** The deltas a list of counter readings yields, one [getDeltaTime]
    per reading, and the timer afterwards. *)
Fixpoint deltas (readings : list Z) (tm : t) : list Q * t :=
  match readings with
  | [] => ([], tm)
  | c :: readings' =>
      let (d, tm1) := getDeltaTime c tm in
      let (ds, tm2) := deltas readings' tm1 in
      (d :: ds, tm2)
  end.

End Timer.

(** ** The frame loop of the application (main.cpp) *)

Module App.


Record t : Type := mk {
  m_timer         : Timer.t;
  m_fpsCalculator : FpsCalculator.t;
  m_statsTracker  : StatsTracker.t;
  m_dropDetector  : DropDetector.t
}.





End App.

(** ** std::string, as the list of its characters *)

From Stdlib Require Ascii String.
From stdpp Require strings gmap.

Module StdString.
Import Stdlib.Strings.Ascii stdpp.strings stdpp.gmap.
#[local] Open Scope Z_scope.

(** [std::string::npos] *)
Definition npos : Z := 2 ^ 64 - 1.

(** A string literal. *)
Definition lit (s : string) : list ascii := String.list_ascii_of_string s.

Definition char_in (c : ascii) (chars : list ascii) : bool :=
  existsb (Ascii.eqb c) chars.

Definition size (s : list ascii) : Z := Z.of_nat (List.length s).

(** [s.find_first_not_of(chars)]: the index of the first character
    that is not one of [chars], or [npos]. *)
Fixpoint find_first_not_of_from (chars s : list ascii) (i : Z) : Z :=
  match s with
  | [] => npos
  | c :: s' =>
      if char_in c chars then find_first_not_of_from chars s' (size_t (i + 1))
      else i
  end.

Definition find_first_not_of (chars s : list ascii) : Z :=
  find_first_not_of_from chars s 0.

(** [s.find_last_not_of(chars)]: the index of the last character that
    is not one of [chars], or [npos]. *)
Fixpoint find_last_not_of_from (chars s : list ascii) (i best : Z) : Z :=
  match s with
  | [] => best
  | c :: s' =>
      find_last_not_of_from chars s' (size_t (i + 1))
        (if char_in c chars then best else i)
  end.

Definition find_last_not_of (chars s : list ascii) : Z :=
  find_last_not_of_from chars s 0 npos.

(** [s.find(c)]: the index of the first [c], or [npos]. *)
Fixpoint find_from (c : ascii) (s : list ascii) (i : Z) : Z :=
  match s with
  | [] => npos
  | x :: s' => if Ascii.eqb x c then i else find_from c s' (size_t (i + 1))
  end.

Definition find (c : ascii) (s : list ascii) : Z := find_from c s 0.

(** [s.substr(pos, n)], for [pos <= s.size()]: at most [n] characters
    from [pos] on. *)
Definition substr (pos n : Z) (s : list ascii) : list ascii :=
  take (Z.to_nat (Z.min n (size s - pos))) (drop (Z.to_nat pos) s).

(** [s.erase(pos, n)], for [pos <= s.size()]. *)
Definition erase (pos n : Z) (s : list ascii) : list ascii :=
  take (Z.to_nat pos) s
  ++ drop (Z.to_nat (pos + Z.min n (size s - pos))) s.

(** The items that [while (std::getline(stream, item, delim))] reads
    from a stream holding [s]: the pieces between delimiters; the end
    of the stream ends an item only if the item has characters. [cur]
    holds the characters of the current item, last first. *)
Fixpoint getline_items (delim : ascii) (s cur : list ascii)
  : list (list ascii) :=
  match s with
  | [] => match cur with [] => [] | _ => [rev cur] end
  | c :: s' =>
      if Ascii.eqb c delim then rev cur :: getline_items delim s' []
      else getline_items delim s' (c :: cur)
  end.

Definition getlines (delim : ascii) (s : list ascii) : list (list ascii) :=
  getline_items delim s [].

(** Every character of [l] is one of [chars]. *)
Definition all_in (chars l : list ascii) : Prop :=
  Forall (fun c => char_in c chars = true) l.

(** [m] neither begins nor ends with one of [chars]. *)
Definition trimmed (chars m : list ascii) : Prop :=
  match m with
  | [] => True
  | c :: _ =>
      char_in c chars = false /\ char_in (List.last m c) chars = false
  end.

Definition SPACE : ascii := Ascii.ascii_of_nat 32.
Definition TAB : ascii := Ascii.ascii_of_nat 9.
Definition LF : ascii := Ascii.ascii_of_nat 10.
Definition CR : ascii := Ascii.ascii_of_nat 13.

End StdString.

(** ** Config: the INI reader (src/core/config.cpp) *)

Module Config.
Import Stdlib.Strings.Ascii stdpp.strings stdpp.gmap.
#[local] Open Scope Z_scope.
Import StdString.

Inductive Position : Type :=
| TopLeft
| TopRight
| BottomLeft
| BottomRight
| Custom.

(** [Position stringToPosition(const std::string& posStr) const] *)
Definition stringToPosition (posStr : list ascii) : Position :=
  if decide (posStr = lit "top_left") then TopLeft
  else if decide (posStr = lit "top_right") then TopRight
  else if decide (posStr = lit "bottom_left") then BottomLeft
  else if decide (posStr = lit "bottom_right") then BottomRight
  else if decide (posStr = lit "custom") then Custom
  else TopRight.

(** [std::string positionToString(Position pos) const] *)
Definition positionToString (pos : Position) : list ascii :=
  match pos with
  | TopLeft => lit "top_left"
  | TopRight => lit "top_right"
  | BottomLeft => lit "bottom_left"
  | BottomRight => lit "bottom_right"
  | Custom => lit "custom"
  end.

(** The characters [trim] removes: [" \t\r\n"]. *)
Definition WHITESPACE : list ascii := [SPACE; TAB; CR; LF].

(** [std::string trim(const std::string& str) const] *)
Definition trim (str : list ascii) : list ascii :=
  let first := find_first_not_of WHITESPACE str in
  if (first =? npos)%Z then []
  else
    let last := find_last_not_of WHITESPACE str in
    substr first (size_t (size_t (last - first) + 1)) str.

(** The two variables of the loop of [parseIniFile]. *)
Record IniState : Type := mkIni {
  currentSection : list ascii;
  data : gmap (list ascii) (list ascii)
}.

(** One pass of the loop of [parseIniFile], for the line [raw]. *)
Definition parseLine (st : IniState) (raw : list ascii) : IniState :=
  let line := trim raw in
  match line with
  | [] => st
  | c0 :: _ =>
      if Ascii.eqb c0 "#"%char || Ascii.eqb c0 ";"%char then st
      else if Ascii.eqb c0 "["%char && Ascii.eqb (List.last line c0) "]"%char
      then
        {| currentSection := substr 1 (size_t (size line - 2)) line;
           data := data st |}
      else
        let eqPos := find "="%char line in
        if (eqPos =? npos)%Z then st
        else
          let key := trim (substr 0 eqPos line) in
          let value := trim (substr (size_t (eqPos + 1)) npos line) in
          match currentSection st with
          | [] => st
          | _ =>
              {| currentSection := currentSection st;
                 data := <[currentSection st ++ lit "." ++ key := value]>
                           (data st) |}
          end
  end.

(** [bool parseIniFile(filename, data)]: [content] is what the file
    holds, [None] when it cannot be opened; the result is the returned
    flag and the map afterwards. *)
Definition parseIniFile (content : option (list ascii))
  (data0 : gmap (list ascii) (list ascii))
  : bool * gmap (list ascii) (list ascii) :=
  match content with
  | None => (false, data0)
  | Some text =>
      (true,
       data (fold_left parseLine (getlines LF text)
               {| currentSection := []; data := data0 |}))
  end.

End Config.

(** ** GameDetector (src/detection/game_detector.cpp) *)

Module GameDetector.
Import Stdlib.Strings.Ascii stdpp.strings stdpp.gmap.
#[local] Open Scope Z_scope.
Import StdString.

(** [RECT] *)
Record RECT : Type := mkRECT { left : Z; top : Z; right : Z; bottom : Z }.

(** What the window system answers about one top-level window. *)
Record Window : Type := mkWindow {
  hwnd        : Z;            (* the handle; 0 is [nullptr] *)
  visible     : bool;         (* IsWindowVisible *)
  windowRect  : RECT;         (* GetWindowRect *)
  monitorRect : RECT;         (* GetMonitorInfo of the nearest monitor *)
  processName : list ascii    (* what getProcessName returns *)
}.

Record t : Type := mk {
  m_gameWindow : Z;
  m_autoDetect : bool;
  m_whitelist  : list (list ascii);
  m_blacklist  : list (list ascii)
}.

(** [GameDetector()] *)
Definition create : t :=
  {| m_gameWindow := 0; m_autoDetect := true;
     m_whitelist := []; m_blacklist := [] |}.

(** [std::vector<std::string> parseList(const std::string& list)] *)
Definition trimItem (item : list ascii) : list ascii :=
  let item := erase 0 (find_first_not_of [SPACE; TAB] item) item in
  erase (size_t (find_last_not_of [SPACE; TAB] item + 1)) npos item.

Definition parseList (text : list ascii) : list (list ascii) :=
  List.filter (fun item => negb (bool_decide (item = [])))
    (map trimItem (getlines ","%char text)).

Definition setWhitelist (whitelist : list ascii) (d : t) : t :=
  {| m_gameWindow := m_gameWindow d; m_autoDetect := m_autoDetect d;
     m_whitelist := parseList whitelist; m_blacklist := m_blacklist d |}.

Definition setBlacklist (blacklist : list ascii) (d : t) : t :=
  {| m_gameWindow := m_gameWindow d; m_autoDetect := m_autoDetect d;
     m_whitelist := m_whitelist d; m_blacklist := parseList blacklist |}.

Definition setAutoDetect (enabled : bool) (d : t) : t :=
  {| m_gameWindow := m_gameWindow d; m_autoDetect := enabled;
     m_whitelist := m_whitelist d; m_blacklist := m_blacklist d |}.

(** [bool isFullscreen(HWND hwnd)] *)
Definition isFullscreen (w : Window) : bool :=
  if (hwnd w =? 0)%Z then false
  else if negb (visible w) then false
  else (left (windowRect w) <=? left (monitorRect w))
       && (top (windowRect w) <=? top (monitorRect w))
       && (right (windowRect w) >=? right (monitorRect w))
       && (bottom (windowRect w) >=? bottom (monitorRect w)).

(** [std::find(v.begin(), v.end(), x) != v.end()] *)
Definition contains (v : list (list ascii)) (x : list ascii) : bool :=
  bool_decide (x ∈ v).

(** [bool isWhitelisted(const std::string& processName)] *)
Definition isWhitelisted (name : list ascii) (d : t) : bool :=
  match m_whitelist d with
  | [] => true
  | _ => contains (m_whitelist d) name
  end.

(** [bool isBlacklisted(const std::string& processName)] *)
Definition isBlacklisted (name : list ascii) (d : t) : bool :=
  contains (m_blacklist d) name.

(** [enumWindowsCallback]: the flag tells whether the enumeration goes
    on. *)
Definition enumWindowsCallback (w : Window) (d : t) : bool * t :=
  if negb (isFullscreen w) then (true, d)
  else
    match processName w with
    | [] => (true, d)
    | _ =>
        if isBlacklisted (processName w) d then (true, d)
        else if negb (isWhitelisted (processName w) d) then (true, d)
        else (false,
              {| m_gameWindow := hwnd w; m_autoDetect := m_autoDetect d;
                 m_whitelist := m_whitelist d;
                 m_blacklist := m_blacklist d |})
    end.

(** The windows [enumWindowsCallback] stops at. *)
Definition Eligible (d : t) (w : Window) : Prop :=
  isFullscreen w = true
  /\ processName w <> []
  /\ ~ (processName w ∈ m_blacklist d)
  /\ (m_whitelist d = [] \/ processName w ∈ m_whitelist d).

(** [EnumWindows(enumWindowsCallback, this)] over the windows the
    system lists. *)
Fixpoint EnumWindows (windows : list Window) (d : t) : t :=
  match windows with
  | [] => d
  | w :: windows' =>
      let (goOn, d') := enumWindowsCallback w d in
      if goOn then EnumWindows windows' d' else d'
  end.

(** [HWND detectGame()] *)
Definition detectGame (windows : list Window) (d : t) : Z * t :=
  if negb (m_autoDetect d) then (m_gameWindow d, d)
  else
    let d1 := {| m_gameWindow := 0; m_autoDetect := m_autoDetect d;
                 m_whitelist := m_whitelist d;
                 m_blacklist := m_blacklist d |} in
    let d2 := EnumWindows windows d1 in
    (m_gameWindow d2, d2).

End GameDetector.

(** ** Binary64: the doubles of the code, bit for bit *)

From Stdlib Require SpecFloat.

Module Binary64.
Import Stdlib.Floats.SpecFloat.
#[local] Open Scope Z_scope.

(** The format of an IEEE 754 binary64 number, the [double] of the
    compilers the overlay is built with: 53 bits of mantissa, exponents
    below 1024. The operations are those of the standard library's
    specification of floating-point arithmetic: each one returns the
    double nearest to the exact result, ties to even. *)
Definition prec : Z := 53.
Definition emax : Z := 1024.

Definition double : Type := spec_float.

(** Every [double] of a running program is a valid one. *)
Definition valid (x : double) : bool := valid_binary prec emax x.

Definition fadd : double -> double -> double := SFadd prec emax.
Definition fsub : double -> double -> double := SFsub prec emax.
Definition fmul : double -> double -> double := SFmul prec emax.
Definition fdiv : double -> double -> double := SFdiv prec emax.

(** [a < b], [a <= b], [a >= b] and [a == b]: all false on a NaN. *)
Definition flt (a b : double) : bool := SFltb a b.
Definition fle (a b : double) : bool := SFleb a b.
Definition fge (a b : double) : bool := SFleb b a.
Definition feq (a b : double) : bool := SFeqb a b.

(** [static_cast<double>(n)] for an integer: the nearest double. *)
Definition of_Z (n : Z) : double := binary_normalize prec emax n 0 false.

Definition zero : double := S754_zero false.   (* 0.0 *)
Definition one : double := of_Z 1.              (* 1.0 *)

(** A decimal literal such as [0.001], given as [1 / 1000] with both
    integers below 2^53: the double nearest to the quotient. *)
Definition decimal (num den : Z) : double := fdiv (of_Z num) (of_Z den).

(** [std::min(a, b)] is [(b < a) ? b : a] and [std::max(a, b)] is
    [(a < b) ? b : a]. *)
Definition std_min (a b : double) : double := if flt b a then b else a.
Definition std_max (a b : double) : double := if flt a b then b else a.

(** [std::accumulate(first, last, init)]: additions from the left. *)
Definition accumulate (l : list double) (init : double) : double :=
  fold_left fadd l init.

(** The integer at or below, and at or above, a finite double
    [(-1)^s * m * 2^e]. *)
Definition floorZ (x : double) : Z :=
  match x with
  | S754_finite s m e =>
      if 0 <=? e then cond_Zopp s (Zpos m) * 2 ^ e
      else cond_Zopp s (Zpos m) / 2 ^ (- e)
  | _ => 0
  end.

Definition ceilZ (x : double) : Z := - floorZ (SFopp x).

(** [std::floor] and [std::ceil]: the double of that integer, with the
    sign of the argument when it is zero; zeros, infinities and NaN are
    returned as they are. *)
Definition std_floor (x : double) : double :=
  match x with
  | S754_finite s _ _ => binary_normalize prec emax (floorZ x) 0 s
  | _ => x
  end.

Definition std_ceil (x : double) : double :=
  match x with
  | S754_finite s _ _ => binary_normalize prec emax (ceilZ x) 0 s
  | _ => x
  end.

(** The integer part of a finite double, towards zero. *)
Definition truncZ (x : double) : Z :=
  match x with
  | S754_finite s m e =>
      cond_Zopp s (if 0 <=? e then Zpos m * 2 ^ e else Zpos m / 2 ^ (- e))
  | _ => 0
  end.

(** [static_cast<size_t>(x)] drops the fractional part; the conversion
    is defined by C++ only when the result fits, and the model wraps
    and gives 0 for an infinity or a NaN. *)
Definition size_t_of_double (x : double) : Z := size_t (truncZ x).

(** [static_cast<double>(n)] for a [size_t]. *)
Definition double_of_size_t (n : Z) : double := of_Z n.

(** [v[i]] on a [std::vector<double>]. *)
Definition vector_at (v : list double) (i : Z) : double :=
  default zero (v !! Z.to_nat i).

(** A double that is a number and not negative. *)
Definition nonneg_finite (x : double) : bool :=
  match x with
  | S754_zero _ | S754_finite false _ _ => true
  | _ => false
  end.

Definition is_nan (x : double) : bool :=
  match x with
  | S754_nan => true
  | _ => false
  end.

End Binary64.

(** ** FpsCalculator on binary64 doubles *)

Module FpsCalculator64.
Import Binary64.
#[local] Open Scope Z_scope.

Definition MAX_HISTORY : Z := 600.
Definition MAX_FPS : double := of_Z 1000.

Record t : Type := mk {
  m_samples     : RingBuffer.t double;   (* RingBuffer<double, MAX_HISTORY> *)
  m_currentFPS  : double;
  m_averageFPS  : double;
  m_historySize : Z                      (* configured history size *)
}.

(** [FpsCalculator(size_t historySize)] *)
Definition create (historySize : Z) : t :=
  {| m_samples := RingBuffer.create zero MAX_HISTORY;
     m_currentFPS := zero;
     m_averageFPS := zero;
     m_historySize := std_min_size_t historySize MAX_HISTORY |}.

(** [double calculateAverage() const] *)
Definition calculateAverage (c : t) : double :=
  let samples := RingBuffer.getAll zero MAX_HISTORY (m_samples c) in
  match samples with
  | [] => zero
  | _ =>
      let sum := accumulate samples zero in
      fdiv sum (double_of_size_t (Z.of_nat (length samples)))
  end.

(** [void update(double deltaTime)] *)
Definition update (deltaTime : double) (c : t) : t :=
  if fle deltaTime zero then c
  else
    let fps := fdiv one deltaTime in
    let fps := std_max zero (std_min fps MAX_FPS) in
    let c1 := {| m_samples := RingBuffer.push MAX_HISTORY fps (m_samples c);
                 m_currentFPS := fps;
                 m_averageFPS := m_averageFPS c;
                 m_historySize := m_historySize c |} in
    {| m_samples := m_samples c1;
       m_currentFPS := m_currentFPS c1;
       m_averageFPS := calculateAverage c1;
       m_historySize := m_historySize c1 |}.

Definition getCurrentFPS (c : t) : double := m_currentFPS c.
Definition getAverageFPS (c : t) : double := m_averageFPS c.
Definition getSamples (c : t) : list double :=
  RingBuffer.getAll zero MAX_HISTORY (m_samples c).
Definition getSampleCount (c : t) : Z := RingBuffer.size (m_samples c).

(** [void reset()] *)
Definition reset (c : t) : t :=
  {| m_samples := RingBuffer.clear (m_samples c);
     m_currentFPS := zero;
     m_averageFPS := zero;
     m_historySize := m_historySize c |}.

(** The sample an update stores when it passes the guard. *)
Definition rate_of (deltaTime : double) : double :=
  std_max zero (std_min (fdiv one deltaTime) MAX_FPS).

(** The mean of a snapshot as a double: the samples added to 0.0 from
    the oldest to the newest, the sum divided by their number; 0.0 for
    no sample. *)
Definition mean (l : list double) : double :=
  match l with
  | [] => zero
  | _ => fdiv (accumulate l zero) (double_of_size_t (Z.of_nat (length l)))
  end.

(** The calls that change a calculator, and the calculator they lead to
    from a construction. *)
Inductive call : Type :=
| Update (deltaTime : double)
| Reset.

Definition step (c : t) (k : call) : t :=
  match k with
  | Update deltaTime => update deltaTime c
  | Reset => reset c
  end.

Definition run (historySize : Z) (calls : list call) : t :=
  fold_left step calls (create historySize).

(** The samples the window holds after these calls. *)
Definition window_step (l : list double) (k : call) : list double :=
  match k with
  | Update deltaTime =>
      if fle deltaTime zero then l
      else RingBuffer.keep_last MAX_HISTORY (l ++ [rate_of deltaTime])
  | Reset => []
  end.

Definition window (calls : list call) : list double :=
  fold_left window_step calls [].

(** The circular storage of the calculator represents the window. *)
Definition Inv (c : t) (l : list double) : Prop :=
  RingBuffer.Rep MAX_HISTORY (m_samples c) l.

End FpsCalculator64.

(** ** StatsTracker on binary64 doubles *)

Module StatsTracker64.
Import Binary64.
#[local] Open Scope Z_scope.

Record Stats : Type := mkStats {
  average      : double;
  min          : double;
  max          : double;
  percentile01 : double;
  percentile1  : double
}.

Record t : Type := mk {
  m_stats          : Stats;
  m_lastUpdate     : time_point;
  m_updateInterval : Z            (* std::chrono::milliseconds *)
}.

Definition zero_stats : Stats := mkStats zero zero zero zero zero.

(** [StatsTracker(int updateIntervalMs)] *)
Definition create (now : time_point) (updateIntervalMs : Z) : t :=
  {| m_stats := zero_stats; m_lastUpdate := now;
     m_updateInterval := updateIntervalMs |}.

(** [std::sort] on doubles, ascending. *)
Fixpoint sort_insert (x : double) (l : list double) : list double :=
  match l with
  | [] => [x]
  | y :: l' => if flt y x then y :: sort_insert x l' else x :: l
  end.

Definition std_sort (l : list double) : list double := foldr sort_insert [] l.

(** [double calculatePercentile(const std::vector<double>&, double) const] *)
Definition calculatePercentile (sortedSamples : list double)
  (percentile : double) : double :=
  let size := Z.of_nat (length sortedSamples) in
  if size =? 0 then zero
  else if size =? 1 then vector_at sortedSamples 0
  else
    let index := fmul percentile (double_of_size_t (size_t (size - 1))) in
    let lowerIndex := size_t_of_double (std_floor index) in
    let upperIndex := size_t_of_double (std_ceil index) in
    let lowerIndex := std_min_size_t lowerIndex (size_t (size - 1)) in
    let upperIndex := std_min_size_t upperIndex (size_t (size - 1)) in
    if lowerIndex =? upperIndex then vector_at sortedSamples lowerIndex
    else
      let weight := fsub index (double_of_size_t lowerIndex) in
      fadd (fmul (vector_at sortedSamples lowerIndex) (fsub one weight))
           (fmul (vector_at sortedSamples upperIndex) weight).

(** [void calculateStats(const std::vector<double>& samples)] *)
Definition calculateStats (samples : list double) (s : t) : t :=
  match samples with
  | [] => {| m_stats := zero_stats; m_lastUpdate := m_lastUpdate s;
             m_updateInterval := m_updateInterval s |}
  | _ =>
      let sorted := std_sort samples in
      let size := Z.of_nat (length sorted) in
      {| m_stats :=
           {| min := vector_at sorted 0;
              max := vector_at sorted (size_t (size - 1));
              average := fdiv (accumulate sorted zero) (double_of_size_t size);
              percentile01 := calculatePercentile sorted (decimal 1 1000);
              percentile1 := calculatePercentile sorted (decimal 1 100) |};
         m_lastUpdate := m_lastUpdate s;
         m_updateInterval := m_updateInterval s |}
  end.

(** The specification's percentile, written from its words: the index
    [p * (n - 1)], its floor and ceiling clamped to [0, n - 1], and the
    linear interpolation between the two samples there, weighted by
    [idx - lo]; the sample itself where the two places coincide. *)
Definition clamp_index (n i : Z) : Z := Z.max 0 (Z.min i (n - 1)).

Definition interpolate (sorted : list double) (lo hi : Z) (w : double)
  : double :=
  if lo =? hi then vector_at sorted lo
  else fadd (fmul (vector_at sorted lo) (fsub one w))
            (fmul (vector_at sorted hi) w).

Definition percentile_spec (sorted : list double) (p : double) : double :=
  match sorted with
  | [] => zero
  | [x] => x
  | _ =>
      let n := Z.of_nat (length sorted) in
      let idx := fmul p (of_Z (n - 1)) in
      let lo := clamp_index n (floorZ idx) in
      let hi := clamp_index n (ceilZ idx) in
      interpolate sorted lo hi (fsub idx (of_Z lo))
  end.

(** The casts of [calculatePercentile] on [n] samples are defined: the
    index [p * (n - 1)] is a number, not negative, below 2^53. *)
Definition index_defined (n : Z) (p : double) : bool :=
  nonneg_finite (fmul p (of_Z (n - 1)))
  && (ceilZ (fmul p (of_Z (n - 1))) <? 2 ^ 53).

End StatsTracker64.

(** ** DropDetector on binary64 doubles: the drop test *)

Module DropDetector64.
Import Binary64.
#[local] Open Scope Z_scope.

Record Drop : Type := mkDrop {
  timestamp  : time_point;
  averageFPS : double;
  currentFPS : double;
  magnitude  : double
}.

Record t : Type := mk {
  m_thresholdPercent : double;
  m_drops            : list Drop;
  m_callback         : bool;        (* is a callback registered? *)
  m_lastDrop         : time_point
}.

(** [DropDetector(double thresholdPercent)] *)
Definition create (now : time_point) (thresholdPercent : double) : t :=
  {| m_thresholdPercent := thresholdPercent; m_drops := [];
     m_callback := false; m_lastDrop := now |}.

(** [bool checkForDrop(double currentFPS, double averageFPS) const] *)
Definition checkForDrop (currentFPS averageFPS : double) (d : t) : bool :=
  if flt averageFPS (of_Z 10) then false
  else
    let dropPercent :=
      fmul (fdiv (fsub averageFPS currentFPS) averageFPS) (of_Z 100) in
    fge dropPercent (m_thresholdPercent d).

(** [void setThreshold(double thresholdPercent)] *)
Definition setThreshold (thresholdPercent : double) (d : t) : t :=
  {| m_thresholdPercent :=
       std_max (of_Z 5) (std_min thresholdPercent (of_Z 50));
     m_drops := m_drops d;
     m_callback := m_callback d;
     m_lastDrop := m_lastDrop d |}.

End DropDetector64.

(** ** Facts about RingBuffer *)

Lemma size_t_small (x : Z) : is_size_t x -> size_t x = x.
Proof. intros H. apply Z.mod_small. exact H. Qed.

Module RingBufferFacts.
Import RingBuffer.
Section Facts.
Context {T : Type}.
Variable T0 : T.
Variable N : Z.
(** [static_assert(N > 0)], and the storage of [N] elements exists:
    a [std::vector] holds fewer than 2^63 elements. *)
Hypothesis N_pos : 0 < N.
Hypothesis N_max : N < 2 ^ 63.

Implicit Types (b : t T) (l : list T) (o : op T) (ops : list (op T)).

Lemma actualIndex_eq b (i : Z) :
  0 <= m_head b < N -> 0 <= m_size b <= N -> 0 <= i < m_size b ->
  actualIndex N b i = (m_head b + N - m_size b + i) mod N.
Proof using N_pos N_max.
  intros Hh Hs Hi. unfold actualIndex.
  assert (H63 : 2 ^ 63 + 2 ^ 63 = 2 ^ SIZE_WIDTH) by reflexivity.
  rewrite (size_t_small (m_head b + N)) by (unfold is_size_t; lia).
  rewrite (size_t_small (m_head b + N - m_size b)) by (unfold is_size_t; lia).
  rewrite size_t_small by (unfold is_size_t; lia).
  reflexivity.
Qed.

Lemma Rep_create : Rep N (create T0 N) [].
Proof using N_pos.
  constructor; simpl; try lia.
  apply length_replicate.
Qed.

Lemma Rep_clear b l : Rep N b l -> Rep N (clear b) [].
Proof using N_pos.
  intros [Hlen Hh Hs Hb Hsl]. constructor; simpl; try lia; exact Hlen.
Qed.

Lemma length_keep_last l :
  Z.of_nat (length (keep_last N l)) = Z.min (Z.of_nat (length l)) N.
Proof using N_pos.
  unfold keep_last. rewrite length_drop. lia.
Qed.

Lemma lookup_keep_last l (i : nat) :
  keep_last N l !! i = l !! (length l - Z.to_nat N + i)%nat.
Proof using Type. unfold keep_last. apply lookup_drop. Qed.

(** Two live slots of the circular storage coincide only if their
    chronological positions do. *)
Lemma slot_neq (h x : Z) :
  0 <= h < N -> 0 < x < N -> (h + N - x) mod N <> h.
Proof using N_pos.
  intros Hh Hx E.
  destruct (Z_lt_ge_dec (h + N - x) N) as [Hlt | Hge].
  - rewrite Z.mod_small in E by lia. lia.
  - assert (E' : (h + N - x) mod N = h - x).
    { symmetry. apply (Z.mod_unique _ _ 1); lia. }
    lia.
Qed.

Lemma Rep_push (v : T) b l :
  Rep N b l -> Rep N (push N v b) (keep_last N (l ++ [v])).
Proof using N_pos N_max.
  intros [Hlen Hh Hs Hb Hsl].
  assert (H63 : 2 ^ 63 + 2 ^ 63 = 2 ^ SIZE_WIDTH) by reflexivity.
  assert (Hhead : m_head (push N v b) = (m_head b + 1) mod N).
  { simpl. rewrite size_t_small by (unfold is_size_t; lia). reflexivity. }
  assert (Hsize : m_size (push N v b) = Z.min (m_size b + 1) N).
  { simpl. destruct (Z.ltb_spec (m_size b) N).
    - rewrite size_t_small by (unfold is_size_t; lia). lia.
    - lia. }
  assert (Hlen' : Z.of_nat (length (keep_last N (l ++ [v])))
                  = Z.min (m_size b + 1) N).
  { rewrite length_keep_last, length_app. simpl. lia. }
  constructor.
  - simpl. rewrite length_insert. exact Hlen.
  - rewrite Hhead. apply Z.mod_pos_bound. lia.
  - rewrite Hsize, Hlen'. reflexivity.
  - rewrite Hlen'. lia.
  - intros i Hi. rewrite Hhead, Hsize.
    rewrite lookup_keep_last.
    set (k := (length (l ++ [v]) - Z.to_nat N)%nat).
    assert (Hk : Z.of_nat k = m_size b + 1 - Z.min (m_size b + 1) N).
    { unfold k. rewrite length_app. simpl. lia. }
    replace ((m_head b + 1) mod N + N - Z.min (m_size b + 1) N + Z.of_nat i)
      with ((m_head b + 1) mod N + (N - Z.min (m_size b + 1) N + Z.of_nat i))
      by lia.
    rewrite Z.add_mod_idemp_l by lia.
    replace (m_head b + 1 + (N - Z.min (m_size b + 1) N + Z.of_nat i))
      with (m_head b + N - m_size b + Z.of_nat (k + i)) by lia.
    simpl m_buffer.
    destruct (decide (k + i < length l)%nat) as [Hlt | Hge].
    + (* an older sample: its slot is not the one being written *)
      rewrite list_lookup_insert_ne.
      * rewrite Hsl by exact Hlt. symmetry. apply lookup_app_l. exact Hlt.
      * intros E. apply Z2Nat.inj in E; [ | lia | apply Z.mod_pos_bound; lia ].
        symmetry in E. revert E.
        replace (m_head b + N - m_size b + Z.of_nat (k + i))
          with (m_head b + N - (m_size b - Z.of_nat (k + i))) by lia.
        apply slot_neq; lia.
    + (* the sample just pushed: it sits in the slot that was the head *)
      assert (Hki : (k + i)%nat = length l) by lia.
      rewrite Hki. rewrite <- Hs.
      replace (m_head b + N - m_size b + m_size b) with (m_head b + 1 * N) by lia.
      rewrite Z.mod_add by lia. rewrite Z.mod_small by lia.
      rewrite list_lookup_insert_eq by lia.
      symmetry. rewrite lookup_app_r by lia.
      replace (length l - length l)%nat with 0%nat by lia. reflexivity.
Qed.

Lemma Rep_step b l o :
  Rep N b l -> Rep N (step N b o) (retained_step N l o).
Proof using N_pos N_max.
  intros H. destruct o as [v | ]; simpl.
  - apply Rep_push. exact H.
  - apply (Rep_clear b l). exact H.
Qed.

Lemma Rep_fold ops b l :
  Rep N b l ->
  Rep N (fold_left (step N) ops b) (fold_left (retained_step N) ops l).
Proof using N_pos N_max.
  revert b l. induction ops as [ | o ops IH]; intros b l H; simpl.
  - exact H.
  - apply IH. apply Rep_step. exact H.
Qed.

(** Every buffer a program can build represents the samples the
    specification says it retains. *)
Lemma Rep_run ops : Rep N (run T0 N ops) (retained N ops).
Proof using N_pos N_max.
  unfold RingBuffer.run, RingBuffer.retained. apply Rep_fold. apply Rep_create.
Qed.

(** *** What the accessors return on a represented buffer *)

Lemma get_Rep b l (index : Z) :
  Rep N b l -> is_size_t index ->
  get T0 N index b =
    match l !! Z.to_nat index with
    | Some v => Ok v
    | None => Throw out_of_range
    end.
Proof using N_pos N_max.
  intros [Hlen Hh Hs Hb Hsl] [Hi0 Hi1]. unfold get.
  destruct (Z.geb_spec index (m_size b)) as [Hge | Hlt].
  - rewrite lookup_ge_None_2 by lia. reflexivity.
  - rewrite actualIndex_eq by lia.
    specialize (Hsl (Z.to_nat index)).
    rewrite Z2Nat.id in Hsl by lia.
    unfold at_. rewrite Hsl by lia.
    destruct (lookup_lt_is_Some_2 l (Z.to_nat index)) as [v Hv]; [lia | ].
    rewrite Hv. reflexivity.
Qed.

Lemma latest_Rep b l :
  Rep N b l ->
  latest T0 N b =
    match last l with
    | Some v => Ok v
    | None => Throw runtime_error
    end.
Proof using N_pos N_max.
  intros [Hlen Hh Hs Hb Hsl]. unfold latest.
  assert (H63 : 2 ^ 63 + 2 ^ 63 = 2 ^ SIZE_WIDTH) by reflexivity.
  rewrite last_lookup.
  destruct (Z.eqb_spec (m_size b) 0) as [Hz | Hnz].
  - destruct l as [ | x l]; [reflexivity | simpl in Hs; lia].
  - rewrite (size_t_small (m_head b + N)) by (unfold is_size_t; lia).
    rewrite size_t_small by (unfold is_size_t; lia).
    specialize (Hsl (pred (length l))).
    replace (m_head b + N - m_size b + Z.of_nat (pred (length l)))
      with (m_head b + N - 1) in Hsl by lia.
    unfold at_. rewrite Hsl by lia.
    destruct (lookup_lt_is_Some_2 l (pred (length l))) as [v Hv]; [lia | ].
    rewrite Hv. reflexivity.
Qed.

Lemma getAll_loop_Rep b l (k : nat) :
  Rep N b l -> (k <= length l)%nat ->
  getAll_loop T0 N (length l - k) (Z.of_nat k) b (take k l) = l.
Proof using N_pos N_max.
  intros HR Hk.
  remember (length l - k)%nat as fuel eqn:Hfuel.
  revert k Hk Hfuel.
  induction fuel as [ | fuel IH]; intros k Hk Hfuel; simpl.
  - apply take_ge. lia.
  - pose proof HR as [Hlen Hh Hs Hb Hsl].
    assert (H63 : 2 ^ 63 + 2 ^ 63 = 2 ^ SIZE_WIDTH) by reflexivity.
    destruct (Z.ltb_spec (Z.of_nat k) (m_size b)) as [Hlt | Hge]; [ | lia].
    rewrite size_t_small by (unfold is_size_t; lia).
    rewrite actualIndex_eq by lia.
    unfold at_. rewrite Hsl by lia.
    destruct (lookup_lt_is_Some_2 l k) as [v Hv]; [lia | ].
    rewrite Hv. simpl.
    rewrite <- (take_S_r l k v Hv).
    replace (Z.of_nat k + 1) with (Z.of_nat (S k)) by lia.
    apply IH; lia.
Qed.

Lemma getAll_Rep b l : Rep N b l -> getAll T0 N b = l.
Proof using N_pos N_max.
  intros HR. unfold getAll.
  rewrite (rep_size N b l HR), Nat2Z.id.
  pose proof (getAll_loop_Rep b l 0 HR) as H.
  rewrite Nat.sub_0_r in H. apply H. lia.
Qed.

(** *** The retained samples of a history of pushes *)

Lemma keep_last_app l1 l2 :
  keep_last N (keep_last N l1 ++ l2) = keep_last N (l1 ++ l2).
Proof using Type.
  clear N_pos N_max.
  unfold keep_last. rewrite !length_app, length_drop.
  destruct (decide (length l1 <= Z.to_nat N)%nat) as [Hle | Hgt].
  - replace (length l1 - Z.to_nat N)%nat with 0%nat by lia.
    rewrite drop_0, Nat.sub_0_r. reflexivity.
  - rewrite <- (drop_app_le l1 l2 (length l1 - Z.to_nat N)) by lia.
    rewrite drop_drop. f_equal. lia.
Qed.

Lemma retained_fold_pushes (vs : list T) l :
  fold_left (retained_step N) (map Push vs) (keep_last N l)
  = keep_last N (l ++ vs).
Proof using Type.
  revert l. induction vs as [ | v vs IH]; intros l; simpl.
  - rewrite app_nil_r. reflexivity.
  - rewrite keep_last_app, IH, <- app_assoc. reflexivity.
Qed.


Lemma last_keep_last_snoc l (v : T) : last (keep_last N (l ++ [v])) = Some v.
Proof using N_pos.
  rewrite last_lookup, lookup_keep_last.
  assert (Hlen : Z.of_nat (length (keep_last N (l ++ [v])))
                 = Z.min (Z.of_nat (length (l ++ [v]))) N)
    by apply length_keep_last.
  rewrite length_app in *. simpl in *.
  replace (length l + 1 - Z.to_nat N
           + pred (length (keep_last N (l ++ [v]))))%nat
    with (length l) by lia.
  rewrite lookup_app_r by lia.
  replace (length l - length l)%nat with 0%nat by lia. reflexivity.
Qed.

Lemma keep_last_short l :
  Z.of_nat (length l) <= N -> keep_last N l = l.
Proof using Type.
  clear N_pos N_max. intros H. unfold keep_last.
  replace (length l - Z.to_nat N)%nat with 0%nat by lia. apply drop_0.
Qed.

Lemma keep_last_flush l (vs : list T) :
  N <= Z.of_nat (length vs) -> keep_last N (l ++ vs) = keep_last N vs.
Proof using N_pos.
  intros H. unfold keep_last.
  rewrite length_app, drop_app_ge by lia. f_equal. lia.
Qed.

Lemma retained_then_pushes ops (vs : list T) :
  retained N (ops ++ map Push vs) = keep_last N (retained N ops ++ vs).
Proof using T0 N_pos N_max.
  unfold retained at 1. rewrite fold_left_app.
  change (fold_left (retained_step N) ops []) with (retained N ops).
  rewrite <- (keep_last_short (retained N ops)) at 1
    by apply (rep_bound N _ _ (Rep_run ops)).
  apply retained_fold_pushes.
Qed.

(** C1. Oldest-overwrite law: after more than [N] pushes, whatever the
    buffer went through before, [size()] is [N], and for every index
    [i < N], [get(i)] returns the pushed value number [pushCount - N + i]
    (counting from 0), so [get(0)] is the value number [pushCount - N];
    [getAll()] lists exactly the last [N] pushed values in the order
    they were pushed. *)
Theorem oldest_overwrite ops (vs : list T) :
  N < Z.of_nat (length vs) ->
  size (run T0 N (ops ++ map Push vs)) = N /\
  (forall i : Z, 0 <= i < N ->
     exists v : T,
       vs !! (length vs - Z.to_nat N + Z.to_nat i)%nat = Some v /\
       get T0 N i (run T0 N (ops ++ map Push vs)) = Ok v) /\
  getAll T0 N (run T0 N (ops ++ map Push vs))
    = drop (length vs - Z.to_nat N) vs.
Proof using N_pos N_max.
  intros Hmore.
  pose proof (Rep_run (ops ++ map Push vs)) as HR.
  rewrite retained_then_pushes, keep_last_flush in HR by lia.
  assert (Hlen : Z.of_nat (length (keep_last N vs)) = N).
  { rewrite length_keep_last. lia. }
  split; [ | split].
  - unfold size. rewrite (rep_size N _ _ HR). exact Hlen.
  - intros i Hi.
    assert (H63 : 2 ^ 63 < 2 ^ SIZE_WIDTH) by reflexivity.
    rewrite (get_Rep _ _ i HR) by (unfold is_size_t; lia).
    rewrite lookup_keep_last.
    destruct (lookup_lt_is_Some_2 vs
                (length vs - Z.to_nat N + Z.to_nat i)) as [v Hv]; [lia | ].
    exists v. rewrite Hv. split; reflexivity.
  - apply (getAll_Rep _ _ HR).
Qed.

(** C10. Raises-iff law of the accessors, on every buffer built from a
    fresh one by pushes and clears: [get(index)] throws [out_of_range]
    exactly when [index >= size()], and otherwise returns the retained
    sample at chronological position [index] (0 = oldest), without
    clamping; [latest()] throws [runtime_error] exactly when no sample is
    retained, and otherwise returns the newest retained sample, which
    right after a push is the value pushed. *)
Theorem accessors_raise_iff ops (index : Z) :
  is_size_t index ->
  size (run T0 N ops) = Z.of_nat (length (retained N ops)) /\
  (get T0 N index (run T0 N ops) = Throw out_of_range
     <-> size (run T0 N ops) <= index) /\
  (index < size (run T0 N ops) ->
     exists v : T,
       retained N ops !! Z.to_nat index = Some v /\
       get T0 N index (run T0 N ops) = Ok v) /\
  (latest T0 N (run T0 N ops) = Throw runtime_error
     <-> size (run T0 N ops) = 0) /\
  (size (run T0 N ops) <> 0 ->
     exists v : T,
       last (retained N ops) = Some v /\
       latest T0 N (run T0 N ops) = Ok v) /\
  (forall v : T, latest T0 N (push N v (run T0 N ops)) = Ok v).
Proof using N_pos N_max.
  intros Hidx.
  pose proof (Rep_run ops) as HR.
  pose proof (rep_size N _ _ HR) as Hs.
  unfold size. rewrite Hs.
  rewrite (get_Rep _ _ index HR Hidx), (latest_Rep _ _ HR).
  destruct Hidx as [Hi0 Hi1].
  split; [reflexivity | ].
  split; [ | split; [ | split; [ | split]]].
  - destruct (retained N ops !! Z.to_nat index) as [v | ] eqn:E.
    + apply lookup_lt_Some in E. split; [discriminate | lia].
    + apply lookup_ge_None in E. split; [lia | reflexivity].
  - intros Hlt.
    destruct (lookup_lt_is_Some_2 (retained N ops) (Z.to_nat index))
      as [v Hv]; [lia | ].
    exists v. rewrite Hv. split; reflexivity.
  - destruct (retained N ops) as [ | x l] eqn:E.
    + simpl. split; reflexivity.
    + destruct (last (x :: l)) as [v | ] eqn:El.
      * split; [discriminate | simpl; lia].
      * apply last_None in El. discriminate.
  - intros Hne. destruct (last (retained N ops)) as [v | ] eqn:El.
    + exists v. split; reflexivity.
    + apply last_None in El. rewrite El in Hne. simpl in Hne. lia.
  - intros v.
    rewrite (latest_Rep _ _ (Rep_push v _ _ HR)).
    rewrite last_keep_last_snoc. reflexivity.
Qed.

End Facts.

(** The laws at a buffer of capacity 3 holding integers. *)
Lemma oldest_overwrite_witness :
  3 < Z.of_nat (length [10; 20; 30; 40; 50]) /\
  size (run 0 3 ([Push 1; Clear; Push 2] ++ map Push [10; 20; 30; 40; 50]))
    = 3 /\
  (forall i : Z, 0 <= i < 3 ->
     exists v : Z,
       [10; 20; 30; 40; 50] !! (5 - Z.to_nat 3 + Z.to_nat i)%nat = Some v /\
       get 0 3 i
         (run 0 3 ([Push 1; Clear; Push 2] ++ map Push [10; 20; 30; 40; 50]))
       = Ok v) /\
  getAll 0 3
    (run 0 3 ([Push 1; Clear; Push 2] ++ map Push [10; 20; 30; 40; 50]))
    = [30; 40; 50].
Proof.
  split; [simpl; lia | ].
  apply (oldest_overwrite 0 3); [lia | reflexivity | simpl; lia].
Defined.

Lemma accessors_raise_iff_witness :
  is_size_t 2 /\
  (get 0 3 2 (run 0 3 [Push 7; Push 8]) = Throw out_of_range
   <-> size (run 0 3 [Push 7; Push 8]) <= 2).
Proof.
  split; [unfold is_size_t, SIZE_WIDTH; lia | ].
  apply (accessors_raise_iff 0 3 ltac:(lia) ltac:(reflexivity)
           [Push 7; Push 8] 2).
  unfold is_size_t, SIZE_WIDTH; lia.
Defined.

End RingBufferFacts.

(** ** Facts about doubles *)

Module DoubleFacts.
#[local] Open Scope Q_scope.

Lemma double_lt_iff (a b : Q) : double_lt a b = true <-> a < b.
Proof. unfold double_lt, Qlt. apply Z.ltb_lt. Qed.

Lemma double_lt_false_iff (a b : Q) : double_lt a b = false <-> b <= a.
Proof. unfold double_lt, Qle. apply Z.ltb_ge. Qed.

Lemma double_le_iff (a b : Q) : double_le a b = true <-> a <= b.
Proof. apply Qle_bool_iff. Qed.

Lemma double_le_false_iff (a b : Q) : double_le a b = false <-> b < a.
Proof.
  unfold double_le. rewrite <- Bool.not_true_iff_false, Qle_bool_iff.
  split; [apply Qnot_le_lt | apply Qlt_not_le].
Qed.

Lemma double_ge_iff (a b : Q) : double_ge a b = true <-> b <= a.
Proof. apply Qle_bool_iff. Qed.

Lemma double_ge_false_iff (a b : Q) : double_ge a b = false <-> a < b.
Proof. apply double_le_false_iff. Qed.

Lemma std_min_cases (a b : Q) :
  (b < a /\ std_min a b = b) \/ (a <= b /\ std_min a b = a).
Proof.
  unfold std_min. destruct (double_lt b a) eqn:E.
  - left. split; [apply double_lt_iff, E | reflexivity].
  - right. split; [apply double_lt_false_iff, E | reflexivity].
Qed.

Lemma std_max_cases (a b : Q) :
  (a < b /\ std_max a b = b) \/ (b <= a /\ std_max a b = a).
Proof.
  unfold std_max. destruct (double_lt a b) eqn:E.
  - left. split; [apply double_lt_iff, E | reflexivity].
  - right. split; [apply double_lt_false_iff, E | reflexivity].
Qed.

(** Clamping [x] into [[lo, hi]] the way the source writes it. *)
Lemma clamp_range (lo hi x : Q) :
  lo <= hi -> lo <= std_max lo (std_min x hi) <= hi.
Proof.
  intros Hlh.
  destruct (std_min_cases x hi) as [[H1 E1] | [H1 E1]]; rewrite E1;
  destruct (std_max_cases lo hi) as [[H2 E2] | [H2 E2]];
  destruct (std_max_cases lo x) as [[H3 E3] | [H3 E3]];
  rewrite ?E2, ?E3; split; lra.
Qed.

Lemma clamp_inside (lo hi x : Q) :
  lo <= x <= hi -> std_max lo (std_min x hi) == x.
Proof.
  intros [Hl Hh].
  destruct (std_min_cases x hi) as [[H1 E1] | [H1 E1]]; rewrite E1.
  - lra.
  - destruct (std_max_cases lo x) as [[H3 E3] | [H3 E3]]; rewrite E3; lra.
Qed.


End DoubleFacts.

(** ** Facts about FpsCalculator *)

Module FpsCalculatorFacts.
Import FpsCalculator DoubleFacts.
#[local] Open Scope Q_scope.

Lemma MAX_HISTORY_pos : (0 < MAX_HISTORY)%Z.
Proof. reflexivity. Qed.

Lemma MAX_HISTORY_max : (MAX_HISTORY < 2 ^ 63)%Z.
Proof. reflexivity. Qed.

Lemma Inv_create (historySize : Z) : Inv (create historySize) [].
Proof. apply RingBufferFacts.Rep_create. exact MAX_HISTORY_pos. Qed.

Lemma Inv_reset (c : t) (l : list Q) : Inv c l -> Inv (reset c) [].
Proof. apply RingBufferFacts.Rep_clear. exact MAX_HISTORY_pos. Qed.

Lemma getSamples_Inv (c : t) (l : list Q) : Inv c l -> getSamples c = l.
Proof.
  apply RingBufferFacts.getAll_Rep;
    [exact MAX_HISTORY_pos | exact MAX_HISTORY_max].
Qed.

Lemma getSampleCount_Inv (c : t) (l : list Q) :
  Inv c l -> getSampleCount c = Z.of_nat (length l).
Proof. intros H. apply (RingBuffer.rep_size _ _ _ H). Qed.


Lemma update_nonpositive (deltaTime : Q) (c : t) :
  deltaTime <= 0 -> update deltaTime c = c.
Proof.
  intros H. unfold update.
  apply double_le_iff in H. rewrite H. reflexivity.
Qed.

Lemma update_positive (deltaTime : Q) (c : t) (l : list Q) :
  Inv c l -> 0 < deltaTime ->
  Inv (update deltaTime c)
      (RingBuffer.keep_last MAX_HISTORY (l ++ [rate_of deltaTime])) /\
  getCurrentFPS (update deltaTime c) = rate_of deltaTime /\
  getAverageFPS (update deltaTime c) = calculateAverage (update deltaTime c).
Proof.
  intros HI Hpos. unfold update.
  apply double_le_false_iff in Hpos. rewrite Hpos.
  split; [ | split; reflexivity].
  unfold Inv. simpl.
  apply RingBufferFacts.Rep_push;
    [exact MAX_HISTORY_pos | exact MAX_HISTORY_max | exact HI].
Qed.

Lemma Inv_step (k : call) (c : t) (l : list Q) :
  Inv c l -> Inv (step c k) (window_step l k).
Proof.
  intros HI. destruct k as [deltaTime | ]; simpl.
  - destruct (double_le deltaTime 0) eqn:E.
    + rewrite update_nonpositive by (apply double_le_iff, E). exact HI.
    + apply update_positive; [exact HI | apply double_le_false_iff, E].
  - apply (Inv_reset c l HI).
Qed.

Lemma Inv_fold (calls : list call) (c : t) (l : list Q) :
  Inv c l -> Inv (fold_left step calls c) (fold_left window_step calls l).
Proof.
  revert c l. induction calls as [ | k calls IH]; intros c l HI; simpl.
  - exact HI.
  - apply IH. apply Inv_step. exact HI.
Qed.

(** Every calculator a program can build holds the window of its calls. *)
Lemma Inv_run (historySize : Z) (calls : list call) :
  Inv (run historySize calls) (window calls).
Proof. apply Inv_fold. apply Inv_create. Qed.

Lemma run_app (historySize : Z) (calls1 calls2 : list call) :
  run historySize (calls1 ++ calls2)
  = fold_left step calls2 (run historySize calls1).
Proof. unfold run. apply fold_left_app. Qed.



(** C3 (the code differs). The history size given to the constructor is
    stored, cut at [MAX_HISTORY], and never consulted: a calculator built
    with history size 2 retains three samples after three updates and
    averages over the three, and in general the retained samples do not
    depend on the history size. *)
Theorem history_size_is_not_the_capacity :
  m_historySize
    (run 2 [Update (1 # 100); Update (1 # 50); Update (1 # 25)]) = 2%Z /\
  getSampleCount
    (run 2 [Update (1 # 100); Update (1 # 50); Update (1 # 25)]) = 3%Z /\
  getSamples
    (run 2 [Update (1 # 100); Update (1 # 50); Update (1 # 25)])
    = [100; 50; 25] /\
  getAverageFPS
    (run 2 [Update (1 # 100); Update (1 # 50); Update (1 # 25)])
    == 175 / 3 /\
  (forall (h1 h2 : Z) (calls : list call),
     getSamples (run h1 calls) = getSamples (run h2 calls) /\
     getSampleCount (run h1 calls) = getSampleCount (run h2 calls)).
Proof.
  split; [reflexivity | ]. split; [reflexivity | ].
  split; [vm_compute; reflexivity | ].
  split; [vm_compute; reflexivity | ].
  intros h1 h2 calls.
  rewrite (getSamples_Inv _ _ (Inv_run h1 calls)).
  rewrite (getSamples_Inv _ _ (Inv_run h2 calls)).
  rewrite (getSampleCount_Inv _ _ (Inv_run h1 calls)).
  rewrite (getSampleCount_Inv _ _ (Inv_run h2 calls)).
  split; reflexivity.
Qed.

(** C9. For every [deltaTime <= 0], [update(deltaTime)] returns without
    touching the object: the current rate, the rolling mean, the number
    of buffered samples and the samples themselves are unchanged. *)
Theorem update_nonpositive_is_noop (deltaTime : Q) (c : t) :
  deltaTime <= 0 ->
  update deltaTime c = c /\
  getCurrentFPS (update deltaTime c) = getCurrentFPS c /\
  getAverageFPS (update deltaTime c) = getAverageFPS c /\
  getSampleCount (update deltaTime c) = getSampleCount c /\
  getSamples (update deltaTime c) = getSamples c.
Proof.
  intros H. rewrite (update_nonpositive deltaTime c H).
  repeat split; reflexivity.
Qed.

Lemma update_nonpositive_is_noop_witness :
  (- (1 # 60) <= 0) /\
  update (- (1 # 60)) (run 120 [Update (1 # 60); Update (1 # 30)])
    = run 120 [Update (1 # 60); Update (1 # 30)].
Proof.
  split; [lra | ].
  apply (update_nonpositive_is_noop (- (1 # 60))
           (run 120 [Update (1 # 60); Update (1 # 30)])).
  lra.
Defined.

End FpsCalculatorFacts.

(** ** Facts about StatsTracker *)

Module StatsTrackerFacts.
Import StatsTracker DoubleFacts.
#[local] Open Scope Q_scope.

(** *** Sorting *)

Lemma sort_insert_perm (x : Q) (l : list Q) :
  Permutation (sort_insert x l) (x :: l).
Proof.
  induction l as [ | y l IH]; simpl.
  - reflexivity.
  - destruct (double_lt y x).
    + rewrite IH. apply perm_swap.
    + reflexivity.
Qed.

Lemma std_sort_perm (l : list Q) : Permutation (std_sort l) l.
Proof.
  induction l as [ | x l IH]; simpl.
  - reflexivity.
  - rewrite sort_insert_perm, IH. reflexivity.
Qed.

Lemma sort_insert_sorted (x : Q) (l : list Q) :
  Sorted Qle l -> Sorted Qle (sort_insert x l).
Proof.
  induction l as [ | y l IH]; intros Hs; simpl.
  - repeat constructor.
  - destruct (double_lt y x) eqn:E.
    + apply Sorted_inv in Hs. destruct Hs as [Hs Hhd].
      constructor; [apply IH, Hs | ].
      destruct l as [ | z l]; simpl.
      * constructor. apply Qlt_le_weak, double_lt_iff, E.
      * apply HdRel_inv in Hhd.
        destruct (double_lt z x); constructor;
          [exact Hhd | apply Qlt_le_weak, double_lt_iff, E].
    + constructor; [exact Hs | ].
      constructor. apply double_lt_false_iff, E.
Qed.

Lemma std_sort_sorted (l : list Q) : Sorted Qle (std_sort l).
Proof.
  induction l as [ | x l IH]; simpl.
  - constructor.
  - apply sort_insert_sorted, IH.
Qed.

Lemma std_sort_length (l : list Q) : length (std_sort l) = length l.
Proof. apply Permutation_length, std_sort_perm. Qed.

(** *** Conversions between doubles and indices *)

Lemma size_t_of_double_integer (z : Z) :
  is_size_t z -> size_t_of_double (inject_Z z) = z.
Proof.
  intros Hz. unfold size_t_of_double.
  assert (E : double_lt (inject_Z z) 0 = false).
  { apply double_lt_false_iff. change 0 with (inject_Z 0).
    rewrite <- Zle_Qle. apply Hz. }
  rewrite E, Qfloor_Z. apply size_t_small, Hz.
Qed.

Lemma std_min_size_t_le (a b : Z) : (a <= b)%Z -> std_min_size_t a b = a.
Proof.
  intros H. unfold std_min_size_t.
  destruct (Z.ltb_spec b a); [lia | reflexivity].
Qed.

(** The real index of a fraction [p] of [n - 1] lies between 0 and
    [n - 1], and so do its floor and its ceiling. *)
Lemma index_bounds (p : Q) (m : Z) :
  0 <= p <= 1 -> (0 <= m)%Z ->
  (0 <= Qfloor (p * inject_Z m) <= m)%Z /\
  (0 <= Qceiling (p * inject_Z m) <= m)%Z.
Proof.
  intros [Hp0 Hp1] Hm.
  assert (Hm' : 0 <= inject_Z m).
  { change 0 with (inject_Z 0). rewrite <- Zle_Qle. exact Hm. }
  assert (H0 : 0 <= p * inject_Z m) by (apply Qmult_le_0_compat; assumption).
  assert (H1 : p * inject_Z m <= inject_Z m) by nra.
  pose proof (Qfloor_resp_le _ _ H0) as F0.
  pose proof (Qfloor_resp_le _ _ H1) as F1.
  pose proof (Qceiling_resp_le _ _ H0) as C0.
  pose proof (Qceiling_resp_le _ _ H1) as C1.
  rewrite Qfloor_Z in F1. rewrite Qceiling_Z in C1.
  change (Qfloor 0) with 0%Z in F0. change (Qceiling 0) with 0%Z in C0.
  lia.
Qed.

(** *** The percentile of the source and the percentile of the words *)

Lemma calculatePercentile_refines (sorted : list Q) (p : Q) :
  0 <= p <= 1 -> is_size_t (Z.of_nat (length sorted)) ->
  calculatePercentile sorted p == percentile_spec sorted p.
Proof.
  intros Hp Hn.
  destruct sorted as [ | x [ | y rest]]; [reflexivity | reflexivity | ].
  unfold calculatePercentile, percentile_spec.
  remember (x :: y :: rest) as l eqn:El.
  remember (Z.of_nat (length l)) as n eqn:En.
  assert (Hn2 : (2 <= n)%Z) by (subst n l; simpl length; lia).
  destruct (Z.eqb_spec n 0) as [? | _]; [lia | ].
  destruct (Z.eqb_spec n 1) as [? | _]; [lia | ].
  assert (Hn1 : is_size_t (n - 1)) by (unfold is_size_t in *; lia).
  rewrite (size_t_small (n - 1) Hn1).
  unfold std_floor, std_ceil, double_of_size_t.
  destruct (index_bounds p (n - 1) Hp ltac:(lia)) as [[F0 F1] [C0 C1]].
  set (idx := p * inject_Z (n - 1)) in *.
  rewrite !size_t_of_double_integer by (unfold is_size_t in *; lia).
  rewrite !std_min_size_t_le by lia.
  unfold clamp_index.
  rewrite (Z.min_l (Qfloor idx)), (Z.min_l (Qceiling idx)) by lia.
  rewrite !Z.max_r by lia.
  unfold lerp.
  destruct (Z.eqb_spec (Qfloor idx) (Qceiling idx)) as [E | _].
  - rewrite <- E. ring.
  - ring.
Qed.

Lemma calculateStats_nonempty (samples : list Q) (s : t) :
  samples <> [] ->
  m_stats (calculateStats samples s) =
    {| min := vector_at (std_sort samples) 0;
       max := vector_at (std_sort samples)
                (size_t (Z.of_nat (length (std_sort samples)) - 1));
       average := accumulate (std_sort samples) 0
                  / double_of_size_t (Z.of_nat (length (std_sort samples)));
       percentile01 := calculatePercentile (std_sort samples) (1 # 1000);
       percentile1 := calculatePercentile (std_sort samples) (1 # 100) |}.
Proof.
  intros Hne. destruct samples as [ | x l]; [congruence | reflexivity].
Qed.

End StatsTrackerFacts.

(** ** Facts about DropDetector *)

Module DropDetectorFacts.
Import DropDetector DoubleFacts.
#[local] Open Scope Q_scope.

Lemma checkForDrop_true (cur avg : Q) (d : t) :
  checkForDrop cur avg d = true <->
  10 <= avg /\ m_thresholdPercent d <= (avg - cur) / avg * 100.
Proof.
  unfold checkForDrop. destruct (double_lt avg 10) eqn:E.
  - apply double_lt_iff in E. split; [discriminate | ].
    intros [H _]. exfalso. lra.
  - apply double_lt_false_iff in E. rewrite double_ge_iff.
    split; [intros H; split; assumption | intros [_ H]; exact H].
Qed.

(** A breach that comes a debounce interval after the last recorded
    drop is recorded and reported. *)
Lemma update_recorded (now : time_point) (cur avg : Q) (d : t) :
  checkForDrop cur avg d = true ->
  DEBOUNCE_SECONDS <= seconds_between (m_lastDrop d) now ->
  update now cur avg d =
    ({| m_thresholdPercent := m_thresholdPercent d;
        m_drops := limit_history (m_drops d ++ [event now cur avg]);
        m_callback := m_callback d;
        m_lastDrop := now |},
     if m_callback d then [event now cur avg] else []).
Proof.
  intros Hc He. unfold update. rewrite Hc.
  apply double_ge_iff in He. rewrite He. reflexivity.
Qed.

(** A breach inside the debounce interval changes nothing. *)
Lemma update_suppressed (now : time_point) (cur avg : Q) (d : t) :
  seconds_between (m_lastDrop d) now < DEBOUNCE_SECONDS ->
  update now cur avg d = (d, []).
Proof.
  intros He. unfold update.
  apply double_ge_false_iff in He. rewrite He.
  destruct (checkForDrop cur avg d); reflexivity.
Qed.

(** No breach, no change. *)
Lemma update_no_drop (now : time_point) (cur avg : Q) (d : t) :
  checkForDrop cur avg d = false -> update now cur avg d = (d, []).
Proof. intros Hc. unfold update. rewrite Hc. reflexivity. Qed.


Lemma length_limit_history (drops : list Drop) :
  (Z.of_nat (length drops) <= MAX_DROP_HISTORY + 1 ->
   Z.of_nat (length (limit_history drops)) <= MAX_DROP_HISTORY)%Z.
Proof.
  intros H. unfold limit_history.
  destruct (Z.gtb_spec (Z.of_nat (length drops)) MAX_DROP_HISTORY).
  - destruct drops; simpl length in *; unfold MAX_DROP_HISTORY in *; lia.
  - lia.
Qed.




(** C7 (the code differs). [setThreshold] stores its argument clamped to
    [5, 50], so 3 is stored as 5 and 99 as 50; the constructor stores its
    argument as it is, so a detector built with 3 has threshold 3, below
    the range, and keeps it until [setThreshold] is called. *)
Theorem threshold_clamped_by_setter_only :
  (forall (p : Q) (d : t),
     5 <= getThreshold (setThreshold p d) <= 50) /\
  (forall d : t,
     getThreshold (setThreshold 3 d) = 5 /\
     getThreshold (setThreshold 99 d) = 50) /\
  (forall (now : time_point) (p : Q), getThreshold (create now p) = p) /\
  getThreshold (create 0%Z 3) = 3 /\
  ~ (5 <= getThreshold (create 0%Z 3) <= 50) /\
  getThreshold
    (run 0%Z 3 [Update 600000000 80 100; SetDropCallback true; ClearHistory])
  = 3.
Proof.
  split; [ | split; [ | split; [ | split; [ | split]]]].
  - intros p d. unfold getThreshold, setThreshold. simpl.
    apply clamp_range. lra.
  - intros d. split; reflexivity.
  - intros now p. reflexivity.
  - reflexivity.
  - simpl. intros [H _]. lra.
  - reflexivity.
Qed.




End DropDetectorFacts.

(** ** Further laws of RingBuffer *)

Module RingBufferLaws.
Import RingBuffer RingBufferFacts.
Section Laws.
Context {T : Type}.
Variable T0 : T.
Variable N : Z.
Hypothesis N_pos : 0 < N.
Hypothesis N_max : N < 2 ^ 63.

Implicit Types (b : t T) (l : list T) (o : op T) (ops : list (op T)).

Lemma Rep_run' ops : Rep N (run T0 N ops) (retained N ops).
Proof using N_pos N_max. apply Rep_run; assumption. Qed.

Lemma getAll_run ops : getAll T0 N (run T0 N ops) = retained N ops.
Proof using N_pos N_max.
  apply (getAll_Rep T0 N N_pos N_max). apply Rep_run'.
Qed.

Lemma size_run ops : size (run T0 N ops) = Z.of_nat (length (retained N ops)).
Proof using N_pos N_max. apply (rep_size N _ _ (Rep_run' ops)). Qed.

Lemma buffer_run_snoc ops o : run T0 N (ops ++ [o]) = step N (run T0 N ops) o.
Proof using Type. unfold run. rewrite fold_left_app. reflexivity. Qed.

Lemma retained_snoc ops o :
  retained N (ops ++ [o]) = retained_step N (retained N ops) o.
Proof using Type. unfold retained. rewrite fold_left_app. reflexivity. Qed.

Lemma retained_after_clear ops ops' :
  retained N (ops ++ Clear :: ops') = retained N ops'.
Proof using Type. unfold retained. rewrite fold_left_app. reflexivity. Qed.

(** X1. Snapshot law: on every buffer built by pushes and clears,
    [getAll()] has exactly [size()] elements and its element number [i]
    is what [get(i)] returns, so the snapshot lists the retained samples
    from the oldest to the newest. *)
Theorem snapshot_law ops :
  Z.of_nat (length (getAll T0 N (run T0 N ops))) = size (run T0 N ops) /\
  (forall i : Z, 0 <= i < size (run T0 N ops) ->
     exists v : T,
       getAll T0 N (run T0 N ops) !! Z.to_nat i = Some v /\
       get T0 N i (run T0 N ops) = Ok v) /\
  (size (run T0 N ops) <> 0 ->
     exists v : T,
       last (getAll T0 N (run T0 N ops)) = Some v /\
       latest T0 N (run T0 N ops) = Ok v).
Proof using N_pos N_max.
  rewrite getAll_run, size_run.
  pose proof (Rep_run' ops) as HR.
  split; [reflexivity | split].
  - intros i Hi.
    assert (H63 : 2 ^ 63 < 2 ^ SIZE_WIDTH) by reflexivity.
    pose proof (rep_bound N _ _ HR) as Hb.
    rewrite (get_Rep T0 N N_pos N_max _ _ i HR) by (unfold is_size_t; lia).
    destruct (lookup_lt_is_Some_2 (retained N ops) (Z.to_nat i))
      as [v Hv]; [lia | ].
    exists v. rewrite Hv. split; reflexivity.
  - intros Hne. rewrite (latest_Rep T0 N N_pos N_max _ _ HR).
    destruct (last (retained N ops)) as [v | ] eqn:El.
    + exists v. split; reflexivity.
    + apply last_None in El. rewrite El in Hne. simpl in Hne. lia.
Qed.

(** X2. One push on a buffer that is not full appends the value to the
    snapshot; one push on a full buffer drops the oldest sample, keeps
    the others in order and appends the value. *)
Theorem push_appends_or_evicts ops (v : T) :
  (size (run T0 N ops) < N ->
     getAll T0 N (push N v (run T0 N ops))
       = getAll T0 N (run T0 N ops) ++ [v]) /\
  (size (run T0 N ops) = N ->
     getAll T0 N (push N v (run T0 N ops))
       = tail (getAll T0 N (run T0 N ops)) ++ [v]).
Proof using N_pos N_max.
  change (push N v (run T0 N ops)) with (step N (run T0 N ops) (Push v)).
  rewrite <- buffer_run_snoc, !getAll_run, size_run, retained_snoc. simpl.
  unfold keep_last. rewrite length_app. simpl.
  split; intros Hs.
  - replace (length (retained N ops) + 1 - Z.to_nat N)%nat with 0%nat by lia.
    apply drop_0.
  - replace (length (retained N ops) + 1 - Z.to_nat N)%nat with 1%nat by lia.
    destruct (retained N ops) as [ | x l]; [simpl in Hs; lia | ].
    reflexivity.
Qed.

(** X3. Counting law: the size never exceeds the capacity and the
    storage keeps its [N] slots; [k] more pushes raise the size by [k]
    up to [N]; after them the buffer is full exactly when the earlier
    size plus [k] reaches [N], and empty exactly when it was empty and
    [k] is 0. *)
Theorem size_counts_pushes ops (vs : list T) :
  0 <= size (run T0 N ops) <= capacity N (run T0 N ops) /\
  length (m_buffer (run T0 N ops)) = Z.to_nat N /\
  size (run T0 N (ops ++ map Push vs))
    = Z.min (size (run T0 N ops) + Z.of_nat (length vs)) N /\
  (isFull N (run T0 N (ops ++ map Push vs)) = true
     <-> N <= size (run T0 N ops) + Z.of_nat (length vs)) /\
  (isEmpty (run T0 N (ops ++ map Push vs)) = true
     <-> vs = [] /\ isEmpty (run T0 N ops) = true).
Proof using N_pos N_max.
  pose proof (Rep_run' ops) as HR.
  pose proof (rep_bound N _ _ HR) as Hb.
  assert (Hsz : size (run T0 N (ops ++ map Push vs))
                = Z.min (size (run T0 N ops) + Z.of_nat (length vs)) N).
  { rewrite !size_run.
    rewrite (retained_then_pushes T0 N N_pos N_max).
    rewrite (length_keep_last N N_pos), length_app. lia. }
  unfold isFull, isEmpty, capacity.
  change (m_size (run T0 N (ops ++ map Push vs)))
    with (size (run T0 N (ops ++ map Push vs))).
  change (m_size (run T0 N ops)) with (size (run T0 N ops)).
  rewrite Hsz, size_run.
  split; [lia | ]. split; [apply (rep_len N _ _ HR) | ].
  split; [reflexivity | ]. split.
  - rewrite Z.eqb_eq. lia.
  - rewrite !Z.eqb_eq. split.
    + intros H. assert (length vs = 0%nat) by lia.
      split; [destruct vs; [reflexivity | simpl in *; lia] | lia].
    + intros [-> H]. simpl. lia.
Qed.

(** X4. [clear()] forgets everything: right after it the buffer is
    empty, and whatever is done next, the size, the snapshot, [get] and
    [latest] are those of a fresh buffer going through the same calls,
    although the slots still hold the old values. *)
Theorem clear_gives_fresh_buffer ops ops' :
  isEmpty (clear (run T0 N ops)) = true /\
  size (run T0 N (ops ++ Clear :: ops')) = size (run T0 N ops') /\
  getAll T0 N (run T0 N (ops ++ Clear :: ops')) = getAll T0 N (run T0 N ops') /\
  latest T0 N (run T0 N (ops ++ Clear :: ops')) = latest T0 N (run T0 N ops') /\
  (forall index : Z, is_size_t index ->
     get T0 N index (run T0 N (ops ++ Clear :: ops'))
     = get T0 N index (run T0 N ops')).
Proof using N_pos N_max.
  split; [reflexivity | ].
  rewrite !getAll_run, !size_run, retained_after_clear.
  split; [reflexivity | ]. split; [reflexivity | ].
  pose proof (Rep_run' (ops ++ Clear :: ops')) as HR1.
  pose proof (Rep_run' ops') as HR2.
  rewrite retained_after_clear in HR1.
  split.
  - rewrite (latest_Rep T0 N N_pos N_max _ _ HR1).
    rewrite (latest_Rep T0 N N_pos N_max _ _ HR2). reflexivity.
  - intros index Hi.
    rewrite (get_Rep T0 N N_pos N_max _ _ index HR1 Hi).
    rewrite (get_Rep T0 N N_pos N_max _ _ index HR2 Hi). reflexivity.
Qed.

End Laws.

Lemma snapshot_law_witness :
  Z.of_nat (length (getAll 0 3 (run 0 3 [Push 1; Push 2; Push 3; Push 4])))
  = size (run 0 3 [Push 1; Push 2; Push 3; Push 4]).
Proof.
  apply (snapshot_law 0 3 ltac:(lia) ltac:(reflexivity)
           [Push 1; Push 2; Push 3; Push 4]).
Defined.

Lemma push_appends_or_evicts_witness :
  size (run 0 3 [Push 1; Push 2; Push 3]) = 3 /\
  getAll 0 3 (push 3 4 (run 0 3 [Push 1; Push 2; Push 3]))
  = tail (getAll 0 3 (run 0 3 [Push 1; Push 2; Push 3])) ++ [4].
Proof.
  split; [reflexivity | ].
  apply (push_appends_or_evicts 0 3 ltac:(lia) ltac:(reflexivity)
           [Push 1; Push 2; Push 3] 4).
  reflexivity.
Defined.

Lemma size_counts_pushes_witness :
  size (run 0 3 ([Push 1; Clear; Push 2] ++ map Push [5; 6; 7]))
  = Z.min (size (run 0 3 [Push 1; Clear; Push 2]) + 3) 3.
Proof.
  apply (size_counts_pushes 0 3 ltac:(lia) ltac:(reflexivity)
           [Push 1; Clear; Push 2] [5; 6; 7]).
Defined.

Lemma clear_gives_fresh_buffer_witness :
  getAll 0 3 (run 0 3 ([Push 1; Push 2; Push 3; Push 4] ++ Clear :: [Push 9]))
  = getAll 0 3 (run 0 3 [Push 9]).
Proof.
  apply (clear_gives_fresh_buffer 0 3 ltac:(lia) ltac:(reflexivity)
           [Push 1; Push 2; Push 3; Push 4] [Push 9]).
Defined.

End RingBufferLaws.

(** ** Further laws of FpsCalculator *)

Module FpsCalculatorLaws.
Import FpsCalculator DoubleFacts FpsCalculatorFacts.
#[local] Open Scope Q_scope.














Lemma step_agree (k : call) (c1 c2 : t) (l : list Q) :
  Inv c1 l -> Inv c2 l ->
  getCurrentFPS c1 = getCurrentFPS c2 ->
  getAverageFPS c1 = getAverageFPS c2 ->
  getCurrentFPS (step c1 k) = getCurrentFPS (step c2 k) /\
  getAverageFPS (step c1 k) = getAverageFPS (step c2 k).
Proof.
  intros H1 H2 Hc Ha. destruct k as [d | ]; simpl.
  - destruct (double_le d 0) eqn:E.
    + rewrite !update_nonpositive by (apply double_le_iff, E).
      split; assumption.
    + apply double_le_false_iff in E.
      destruct (update_positive d _ _ H1 E) as (H1' & Hc1 & Ha1).
      destruct (update_positive d _ _ H2 E) as (H2' & Hc2 & Ha2).
      split; [congruence | ].
      rewrite Ha1, Ha2. unfold calculateAverage.
      change (RingBuffer.getAll 0 MAX_HISTORY (m_samples (update d c1)))
        with (getSamples (update d c1)).
      change (RingBuffer.getAll 0 MAX_HISTORY (m_samples (update d c2)))
        with (getSamples (update d c2)).
      rewrite (getSamples_Inv _ _ H1'), (getSamples_Inv _ _ H2').
      reflexivity.
  - split; reflexivity.
Qed.

Lemma fold_agree (calls : list call) (c1 c2 : t) (l : list Q) :
  Inv c1 l -> Inv c2 l ->
  getCurrentFPS c1 = getCurrentFPS c2 ->
  getAverageFPS c1 = getAverageFPS c2 ->
  getCurrentFPS (fold_left step calls c1)
    = getCurrentFPS (fold_left step calls c2) /\
  getAverageFPS (fold_left step calls c1)
    = getAverageFPS (fold_left step calls c2) /\
  getSamples (fold_left step calls c1) = getSamples (fold_left step calls c2) /\
  getSampleCount (fold_left step calls c1)
    = getSampleCount (fold_left step calls c2).
Proof.
  revert c1 c2 l. induction calls as [ | k calls IH]; intros c1 c2 l H1 H2 Hc Ha.
  - simpl. split; [exact Hc | ]. split; [exact Ha | ].
    rewrite (getSamples_Inv _ _ H1), (getSamples_Inv _ _ H2).
    rewrite (getSampleCount_Inv _ _ H1), (getSampleCount_Inv _ _ H2).
    split; reflexivity.
  - simpl. destruct (step_agree k c1 c2 l H1 H2 Hc Ha) as [Hc' Ha'].
    apply (IH _ _ (window_step l k)); try assumption; apply Inv_step; assumption.
Qed.

(** X8. [reset()] gives back a fresh calculator: right after it the
    current rate and the rolling mean are 0 and no sample is buffered,
    and whatever is done next, the current rate, the rolling mean, the
    snapshot and the sample count are those of a newly constructed
    calculator going through the same calls. *)
Theorem reset_gives_fresh_calculator
  (historySize : Z) (calls calls' : list call) :
  getCurrentFPS (reset (run historySize calls)) = 0 /\
  getAverageFPS (reset (run historySize calls)) = 0 /\
  getSamples (reset (run historySize calls)) = [] /\
  getCurrentFPS (run historySize (calls ++ Reset :: calls'))
    = getCurrentFPS (run historySize calls') /\
  getAverageFPS (run historySize (calls ++ Reset :: calls'))
    = getAverageFPS (run historySize calls') /\
  getSamples (run historySize (calls ++ Reset :: calls'))
    = getSamples (run historySize calls') /\
  getSampleCount (run historySize (calls ++ Reset :: calls'))
    = getSampleCount (run historySize calls').
Proof.
  pose proof (Inv_run historySize calls) as HI.
  pose proof (Inv_reset _ _ HI) as HR.
  split; [reflexivity | ]. split; [reflexivity | ].
  split; [apply (getSamples_Inv _ _ HR) | ].
  rewrite run_app. simpl.
  apply (fold_agree calls' _ _ [] HR (Inv_create historySize));
    reflexivity.
Qed.

End FpsCalculatorLaws.

(** ** Further laws of StatsTracker *)

Module StatsTrackerLaws.
Import StatsTracker DoubleFacts StatsTrackerFacts.
#[local] Open Scope Q_scope.

Lemma vector_at_lookup (v : list Q) (i : Z) (x : Q) :
  v !! Z.to_nat i = Some x -> vector_at v i = x.
Proof. intros H. unfold vector_at. rewrite H. reflexivity. Qed.

Lemma vector_at_cons (x : Q) (v : list Q) (i : Z) :
  (0 < i)%Z -> vector_at (x :: v) i = vector_at v (i - 1).
Proof.
  intros Hi. unfold vector_at.
  replace (Z.to_nat i) with (S (Z.to_nat (i - 1))) by lia. reflexivity.
Qed.

Lemma vector_at_In (v : list Q) (i : Z) :
  (0 <= i < Z.of_nat (length v))%Z -> In (vector_at v i) v.
Proof.
  intros Hi.
  destruct (lookup_lt_is_Some_2 v (Z.to_nat i)) as [x Hx]; [lia | ].
  rewrite (vector_at_lookup _ _ _ Hx).
  apply list_elem_of_In. eapply list_elem_of_lookup_2. exact Hx.
Qed.

Lemma In_vector_at (v : list Q) (x : Q) :
  In x v -> exists i : Z, (0 <= i < Z.of_nat (length v))%Z /\ vector_at v i = x.
Proof.
  intros H. apply list_elem_of_In, list_elem_of_lookup_1 in H.
  destruct H as [k Hk]. exists (Z.of_nat k). split.
  - apply lookup_lt_Some in Hk. lia.
  - apply vector_at_lookup. rewrite Nat2Z.id. exact Hk.
Qed.

Lemma sorted_head_le (x : Q) (v : list Q) (i : Z) :
  Sorted Qle (x :: v) -> (0 <= i < Z.of_nat (length (x :: v)))%Z ->
  x <= vector_at (x :: v) i.
Proof.
  intros Hs Hi.
  apply Sorted_StronglySorted in Hs; [ | intros a b c; apply Qle_trans].
  apply StronglySorted_inv in Hs. destruct Hs as [_ Hall].
  destruct (Z.eq_dec i 0%Z) as [-> | Hne].
  - apply Qle_refl.
  - rewrite vector_at_cons by lia.
    rewrite List.Forall_forall in Hall. apply Hall.
    apply vector_at_In. simpl length in Hi. lia.
Qed.

(** In a vector sorted ascending, a smaller index holds a smaller value. *)
Lemma sorted_vector_at_le (v : list Q) (i j : Z) :
  Sorted Qle v -> (0 <= i <= j)%Z -> (j < Z.of_nat (length v))%Z ->
  vector_at v i <= vector_at v j.
Proof.
  intros Hs. revert i j. induction v as [ | x v IH]; intros i j Hij Hj.
  - simpl in Hj. lia.
  - destruct (Z.eq_dec i 0%Z) as [-> | Hne].
    + change (vector_at (x :: v) 0) with x.
      apply sorted_head_le; [exact Hs | lia].
    + rewrite !vector_at_cons by lia.
      apply IH; [apply Sorted_inv in Hs; apply Hs | lia | ].
      simpl length in Hj. lia.
Qed.


Lemma Qceiling_le_floor_succ (x : Q) : (Qceiling x <= Qfloor x + 1)%Z.
Proof.
  pose proof (Qlt_floor x) as H.
  apply Qlt_le_weak, Qceiling_resp_le in H.
  rewrite Qceiling_Z in H. exact H.
Qed.

Lemma lerp_between (a b w : Q) :
  a <= b -> 0 <= w <= 1 -> a <= lerp a b w <= b.
Proof. intros Hab [Hw0 Hw1]. unfold lerp. split; nra. Qed.

Lemma lerp_mono (a b w1 w2 : Q) :
  a <= b -> w1 <= w2 -> lerp a b w1 <= lerp a b w2.
Proof. intros Hab Hw. unfold lerp. nra. Qed.

Lemma fraction_range (x : Q) :
  0 <= x - inject_Z (Qfloor x) <= 1.
Proof.
  pose proof (Qfloor_le x) as H1. pose proof (Qlt_floor x) as H2.
  rewrite inject_Z_plus in H2. change (inject_Z 1) with 1 in H2.
  split; lra.
Qed.

(** With two samples or more, the percentile is the interpolation
    between the samples around the real index. *)
Lemma percentile_lerp (v : list Q) (p : Q) :
  (2 <= Z.of_nat (length v))%Z -> is_size_t (Z.of_nat (length v)) ->
  0 <= p <= 1 ->
  calculatePercentile v p
  == lerp (vector_at v (Qfloor (p * inject_Z (Z.of_nat (length v) - 1))))
          (vector_at v (Qceiling (p * inject_Z (Z.of_nat (length v) - 1))))
          (p * inject_Z (Z.of_nat (length v) - 1)
           - inject_Z (Qfloor (p * inject_Z (Z.of_nat (length v) - 1)))).
Proof.
  intros Hn Hsz Hp.
  rewrite (calculatePercentile_refines v p Hp Hsz).
  destruct v as [ | x [ | y rest]]; [simpl in Hn; lia | simpl in Hn; lia | ].
  unfold percentile_spec.
  remember (x :: y :: rest) as l eqn:El.
  destruct (index_bounds p (Z.of_nat (length l) - 1) Hp ltac:(lia))
    as [[F0 F1] [C0 C1]].
  unfold clamp_index.
  rewrite (Z.min_l (Qfloor _)), (Z.min_l (Qceiling _)) by lia.
  rewrite !Z.max_r by lia.
  reflexivity.
Qed.

Lemma percentile_chain (v : list Q) (p q : Q) :
  Sorted Qle v -> is_size_t (Z.of_nat (length v)) ->
  0 <= p -> p <= q -> q <= 1 ->
  vector_at v 0 <= calculatePercentile v p /\
  calculatePercentile v p <= calculatePercentile v q /\
  calculatePercentile v q <= vector_at v (Z.of_nat (length v) - 1).
Proof.
  intros Hs Hsz Hp Hpq Hq.
  destruct v as [ | x [ | y rest]].
  - repeat split; apply Qle_refl.
  - repeat split; apply Qle_refl.
  - remember (x :: y :: rest) as l eqn:El.
    assert (Hn : (2 <= Z.of_nat (length l))%Z) by (subst l; simpl length; lia).
    set (m := (Z.of_nat (length l) - 1)%Z) in *.
    assert (Hm : 1 <= inject_Z m).
    { change 1 with (inject_Z 1). rewrite <- Zle_Qle. unfold m. lia. }
    rewrite (percentile_lerp l p Hn Hsz) by (split; lra).
    rewrite (percentile_lerp l q Hn Hsz) by (split; lra).
    fold m.
    set (i1 := p * inject_Z m). set (i2 := q * inject_Z m).
    assert (H12 : i1 <= i2) by (unfold i1, i2; nra).
    destruct (index_bounds p m ltac:(split; lra) ltac:(unfold m; lia))
      as [[F0 F1] [C0 C1]].
    destruct (index_bounds q m ltac:(split; lra) ltac:(unfold m; lia))
      as [[G0 G1] [D0 D1]].
    fold i1 in F0, F1, C0, C1. fold i2 in G0, G1, D0, D1.
    pose proof (Qle_floor_ceiling i1) as FC1. rewrite <- Zle_Qle in FC1.
    pose proof (Qle_floor_ceiling i2) as FC2. rewrite <- Zle_Qle in FC2.
    pose proof (Qceiling_le_floor_succ i1) as CF1.
    pose proof (Qceiling_le_floor_succ i2) as CF2.
    pose proof (Qfloor_resp_le _ _ H12) as Fm.
    pose proof (Qceiling_resp_le _ _ H12) as Cm.
    assert (Hat : forall i j : Z, (0 <= i <= j)%Z -> (j <= m)%Z ->
                  vector_at l i <= vector_at l j).
    { intros i j Hij Hj. apply sorted_vector_at_le; [exact Hs | lia | ].
      unfold m in Hj. lia. }
    pose proof (lerp_between _ _ _
                  (Hat (Qfloor i1) (Qceiling i1) ltac:(lia) C1)
                  (fraction_range i1))
      as [L1 U1].
    pose proof (lerp_between _ _ _
                  (Hat (Qfloor i2) (Qceiling i2) ltac:(lia) D1)
                  (fraction_range i2))
      as [L2 U2].
    split; [ | split].
    + eapply Qle_trans; [ | exact L1]. apply Hat; lia.
    + destruct (Z_le_gt_dec (Qceiling i1) (Qfloor i2)) as [Hsep | Hsame].
      * eapply Qle_trans; [exact U1 | ].
        eapply Qle_trans; [ | exact L2]. apply Hat; lia.
      * assert (Ef : Qfloor i2 = Qfloor i1) by lia.
        assert (Ec : Qceiling i2 = Qceiling i1) by lia.
        rewrite Ef, Ec.
        apply lerp_mono; [apply Hat; lia | lra].
    + eapply Qle_trans; [exact U2 | ]. apply Hat; lia.
Qed.

Lemma stats_fields (samples : list Q) (s : t) :
  samples <> [] -> is_size_t (Z.of_nat (length samples)) ->
  min (m_stats (calculateStats samples s)) = vector_at (std_sort samples) 0 /\
  max (m_stats (calculateStats samples s))
    = vector_at (std_sort samples) (Z.of_nat (length samples) - 1) /\
  average (m_stats (calculateStats samples s))
    = accumulate (std_sort samples) 0 / inject_Z (Z.of_nat (length samples)) /\
  percentile01 (m_stats (calculateStats samples s))
    = calculatePercentile (std_sort samples) (1 # 1000) /\
  percentile1 (m_stats (calculateStats samples s))
    = calculatePercentile (std_sort samples) (1 # 100).
Proof.
  intros Hne Hsz.
  rewrite (calculateStats_nonempty samples s Hne). simpl.
  rewrite std_sort_length.
  assert (Hlen : (1 <= Z.of_nat (length samples))%Z).
  { destruct samples; [congruence | simpl; lia]. }
  rewrite size_t_small by (unfold is_size_t in *; lia).
  repeat split; reflexivity.
Qed.

Lemma stats_order (samples : list Q) (s : t) :
  samples <> [] -> is_size_t (Z.of_nat (length samples)) ->
  In (min (m_stats (calculateStats samples s))) samples /\
  In (max (m_stats (calculateStats samples s))) samples /\
  (forall x : Q, In x samples ->
     min (m_stats (calculateStats samples s)) <= x /\
     x <= max (m_stats (calculateStats samples s))) /\
  min (m_stats (calculateStats samples s))
    <= percentile01 (m_stats (calculateStats samples s)) /\
  percentile01 (m_stats (calculateStats samples s))
    <= percentile1 (m_stats (calculateStats samples s)) /\
  percentile1 (m_stats (calculateStats samples s))
    <= max (m_stats (calculateStats samples s)).
Proof.
  intros Hne Hsz.
  destruct (stats_fields samples s Hne Hsz) as (Emin & Emax & _ & E01 & E1).
  rewrite Emin, Emax, E01, E1.
  pose proof (std_sort_sorted samples) as Hs.
  pose proof (std_sort_perm samples) as Hp.
  pose proof (std_sort_length samples) as Hl.
  assert (Hlen : (1 <= Z.of_nat (length samples))%Z).
  { destruct samples; [congruence | simpl; lia]. }
  assert (Hsz' : is_size_t (Z.of_nat (length (std_sort samples))))
    by (rewrite Hl; exact Hsz).
  split; [ | split; [ | split]].
  - apply (Permutation_in _ Hp). apply vector_at_In. lia.
  - apply (Permutation_in _ Hp). apply vector_at_In. lia.
  - intros x Hx.
    apply (Permutation_in _ (Permutation_sym Hp)) in Hx.
    destruct (In_vector_at _ _ Hx) as (i & Hi & <-).
    split; apply sorted_vector_at_le; try exact Hs; lia.
  - destruct (percentile_chain (std_sort samples) (1 # 1000) (1 # 1000)
                Hs Hsz' ltac:(lra) ltac:(lra) ltac:(lra)) as (A & _ & _).
    destruct (percentile_chain (std_sort samples) (1 # 1000) (1 # 100)
                Hs Hsz' ltac:(lra) ltac:(lra) ltac:(lra)) as (_ & B & C).
    rewrite Hl in C. repeat split; assumption.
Qed.

(** X9. For a non-empty sample vector, the minimum and the maximum that
    [calculateStats] stores are samples of the input, and every sample
    lies between them. *)
Theorem min_and_max_are_the_extremes (samples : list Q) (s : t) :
  samples <> [] -> is_size_t (Z.of_nat (length samples)) ->
  In (min (m_stats (calculateStats samples s))) samples /\
  In (max (m_stats (calculateStats samples s))) samples /\
  (forall x : Q, In x samples ->
     min (m_stats (calculateStats samples s)) <= x /\
     x <= max (m_stats (calculateStats samples s))).
Proof.
  intros Hne Hsz.
  destruct (stats_order samples s Hne Hsz) as (Hmin & Hmax & Hall & _).
  split; [exact Hmin | ]. split; [exact Hmax | exact Hall].
Qed.

Lemma min_and_max_are_the_extremes_witness :
  [60; 30; 45] <> [] /\ is_size_t (Z.of_nat (length [60; 30; 45])) /\
  In (min (m_stats (calculateStats [60; 30; 45] (create 0 500)))) [60; 30; 45].
Proof.
  assert (H1 : [60; 30; 45] <> []) by discriminate.
  assert (H2 : is_size_t (Z.of_nat (length [60; 30; 45])))
    by (unfold is_size_t, SIZE_WIDTH; simpl; lia).
  split; [exact H1 | ]. split; [exact H2 | ].
  apply (min_and_max_are_the_extremes [60; 30; 45] (create 0 500) H1 H2).
Defined.


(** X12. Throttling: an update that comes less than the update
    interval (in whole milliseconds) after the last recomputation, or
    after construction or [reset], changes nothing, so the statistics of
    the earlier samples stay visible; an update that comes later
    recomputes the statistics from its samples and restarts the
    interval. *)
Theorem update_is_throttled
  (s : t) (now1 now2 : time_point) (samples1 samples2 : list Q) :
  (m_updateInterval s <= millis_between (m_lastUpdate s) now1)%Z ->
  (millis_between now1 now2 < m_updateInterval s)%Z ->
  getStats (update now1 samples1 s) = m_stats (calculateStats samples1 s) /\
  m_lastUpdate (update now1 samples1 s) = now1 /\
  update now2 samples2 (update now1 samples1 s) = update now1 samples1 s /\
  update now2 samples2 (create now1 (m_updateInterval s))
    = create now1 (m_updateInterval s) /\
  update now2 samples2 (reset now1 s) = reset now1 s.
Proof.
  intros Hdue Hsoon.
  assert (E1 : update now1 samples1 s
               = {| m_stats := m_stats (calculateStats samples1 s);
                    m_lastUpdate := now1;
                    m_updateInterval := m_updateInterval s |}).
  { unfold update.
    destruct (Z.geb_spec (millis_between (m_lastUpdate s) now1)
                (m_updateInterval s)); [ | lia].
    destruct samples1; reflexivity. }
  assert (Hskip : forall s' : t,
            m_lastUpdate s' = now1 -> m_updateInterval s' = m_updateInterval s ->
            update now2 samples2 s' = s').
  { intros s' Hl Hi. unfold update. rewrite Hl, Hi.
    destruct (Z.geb_spec (millis_between now1 now2) (m_updateInterval s));
      [lia | reflexivity]. }
  rewrite E1. split; [reflexivity | ]. split; [reflexivity | ].
  split; [ | split]; apply Hskip; reflexivity.
Qed.

Lemma update_is_throttled_witness :
  (m_updateInterval (create 0 500)
   <= millis_between (m_lastUpdate (create 0 500)) 600000000)%Z /\
  (millis_between 600000000 1099999999 < m_updateInterval (create 0 500))%Z /\
  update 1099999999 [30] (update 600000000 [60; 30; 45] (create 0 500))
  = update 600000000 [60; 30; 45] (create 0 500).
Proof.
  assert (H1 : (m_updateInterval (create 0 500)
                <= millis_between (m_lastUpdate (create 0 500)) 600000000)%Z)
    by (vm_compute; discriminate).
  assert (H2 : (millis_between 600000000 1099999999
                < m_updateInterval (create 0 500))%Z)
    by reflexivity.
  split; [exact H1 | ]. split; [exact H2 | ].
  apply (update_is_throttled (create 0 500) 600000000 1099999999
           [60; 30; 45] [30] H1 H2).
Defined.

End StatsTrackerLaws.

(** ** Further laws of DropDetector *)

Module DropDetectorLaws.
Import DropDetector DropHistory DoubleFacts DropDetectorFacts.
#[local] Open Scope Q_scope.

Lemma debounce_iff (a b : time_point) :
  DEBOUNCE_SECONDS <= seconds_between a b <-> (a + 500000000 <= b)%Z.
Proof.
  unfold DEBOUNCE_SECONDS, seconds_between, NANOS_PER_SECOND.
  unfold Qle, Qdiv, Qmult, Qinv, inject_Z. simpl. lia.
Qed.


(** The two things [update] can do. *)
Lemma update_cases (now : time_point) (cur avg : Q) (d : t) :
  update now cur avg d = (d, []) \/
  (checkForDrop cur avg d = true /\
   (m_lastDrop d + 500000000 <= now)%Z /\
   update now cur avg d =
     ({| m_thresholdPercent := m_thresholdPercent d;
         m_drops := limit_history (m_drops d ++ [event now cur avg]);
         m_callback := m_callback d;
         m_lastDrop := now |},
      if m_callback d then [event now cur avg] else [])).
Proof.
  destruct (checkForDrop cur avg d) eqn:Hc.
  - destruct (Qlt_le_dec (seconds_between (m_lastDrop d) now) DEBOUNCE_SECONDS)
      as [Hclose | Hfar].
    + left. apply update_suppressed. exact Hclose.
    + right. split; [reflexivity | ]. split; [apply debounce_iff, Hfar | ].
      apply update_recorded; assumption.
  - left. apply update_no_drop. exact Hc.
Qed.

Lemma detector_run_snoc (now0 : time_point) (thr : Q) (calls : list call) (c : call) :
  run now0 thr (calls ++ [c]) = step (run now0 thr calls) c.
Proof. unfold run. rewrite fold_left_app. reflexivity. Qed.

Lemma limit_history_cases (drops : list Drop) :
  limit_history drops = drops \/ limit_history drops = tail drops.
Proof.
  unfold limit_history.
  destruct (Z.of_nat (length drops) >? MAX_DROP_HISTORY)%Z; auto.
Qed.

Lemma Forall_limit_history (P : Drop -> Prop) (drops : list Drop) :
  Forall P drops -> Forall P (limit_history drops).
Proof.
  intros H. destruct (limit_history_cases drops) as [-> | ->]; [exact H | ].
  destruct H; [constructor | assumption].
Qed.

Lemma Sorted_snoc (R : Drop -> Drop -> Prop) (l : list Drop) (e : Drop) :
  Sorted R l -> (forall x : Drop, last l = Some x -> R x e) ->
  Sorted R (l ++ [e]).
Proof.
  induction l as [ | a l IH]; intros Hs Hl; simpl.
  - repeat constructor.
  - apply Sorted_inv in Hs. destruct Hs as [Hs Hhd].
    constructor.
    + apply IH; [exact Hs | ]. intros x Hx. apply Hl.
      destruct l; [discriminate | exact Hx].
    + destruct l as [ | b l]; simpl.
      * constructor. apply Hl. reflexivity.
      * constructor. apply HdRel_inv in Hhd. exact Hhd.
Qed.

Lemma Sorted_limit_history (R : Drop -> Drop -> Prop) (drops : list Drop) :
  Sorted R drops -> Sorted R (limit_history drops).
Proof.
  intros H. destruct (limit_history_cases drops) as [-> | ->]; [exact H | ].
  destruct drops; [constructor | ]. apply Sorted_inv in H. apply H.
Qed.

(** What holds of the history in every state a client can reach. *)
Lemma history_invariant (now0 : time_point) (thr : Q) (calls : list call) :
  (Z.of_nat (length (m_drops (run now0 thr calls))) <= MAX_DROP_HISTORY)%Z /\
  Sorted spaced (m_drops (run now0 thr calls)) /\
  Forall (fun e => (timestamp e <= m_lastDrop (run now0 thr calls))%Z)
    (m_drops (run now0 thr calls)) /\
  (now0 <= m_lastDrop (run now0 thr calls))%Z /\
  Forall (fun e => (now0 + 500000000 <= timestamp e)%Z)
    (m_drops (run now0 thr calls)) /\
  Forall (fun e => 10 <= averageFPS e /\
                   magnitude e = (averageFPS e - currentFPS e) / averageFPS e)
    (m_drops (run now0 thr calls)).
Proof.
  induction calls as [ | c calls IH] using rev_ind.
  - simpl. unfold MAX_DROP_HISTORY.
    repeat split; try constructor; lia.
  - rewrite detector_run_snoc.
    destruct IH as (Hlen & Hsort & Hlast & Hstart & Hafter & Hok).
    set (d := run now0 thr calls) in *.
    destruct c as [now cur avg | p | r | ]; simpl.
    + destruct (update_cases now cur avg d) as [E | (Hc & Hdue & E)];
        rewrite E; simpl.
      * repeat split; assumption.
      * split; [ | split; [ | split; [ | split; [ | split]]]].
        -- apply length_limit_history. rewrite length_app. simpl. lia.
        -- apply Sorted_limit_history, Sorted_snoc; [exact Hsort | ].
           intros x Hx. apply debounce_iff. simpl.
           apply last_Some_elem_of in Hx.
           rewrite Forall_forall in Hlast. specialize (Hlast x Hx). lia.
        -- apply Forall_limit_history, Forall_app. split.
           ++ eapply Forall_impl; [exact Hlast | ]. simpl. intros; lia.
           ++ constructor; [simpl; lia | constructor].
        -- lia.
        -- apply Forall_limit_history, Forall_app. split; [exact Hafter | ].
           constructor; [simpl; lia | constructor].
        -- apply Forall_limit_history, Forall_app. split; [exact Hok | ].
           constructor; [ | constructor]. simpl.
           apply checkForDrop_true in Hc. split; [apply Hc | reflexivity].
    + repeat split; assumption.
    + repeat split; assumption.
    + unfold MAX_DROP_HISTORY. repeat split; try constructor; lia.
Qed.



(** X14. Debounce spacing: in every state reached from a construction
    by updates, threshold and callback changes and history clears, any
    two consecutive events of the history are at least 0.5 s apart, the
    first one comes at least 0.5 s after the construction, and no event
    is later than the debounce timestamp. *)
Theorem history_is_spaced (now0 : time_point) (thr : Q) (calls : list call) :
  Sorted spaced (getDrops (run now0 thr calls)) /\
  Forall (fun e => DEBOUNCE_SECONDS <= seconds_between now0 (timestamp e))
    (getDrops (run now0 thr calls)) /\
  Forall (fun e => (timestamp e <= m_lastDrop (run now0 thr calls))%Z)
    (getDrops (run now0 thr calls)).
Proof.
  destruct (history_invariant now0 thr calls) as (_ & Hs & Hl & _ & Ha & _).
  split; [exact Hs | ]. split; [ | exact Hl].
  eapply Forall_impl; [exact Ha | ]. intros e He. apply debounce_iff, He.
Qed.








Lemma limit_history_keep_last (drops : list Drop) :
  (Z.of_nat (length drops) <= MAX_DROP_HISTORY + 1)%Z ->
  limit_history drops = RingBuffer.keep_last MAX_DROP_HISTORY drops.
Proof.
  unfold limit_history, RingBuffer.keep_last, MAX_DROP_HISTORY. intros Hlen.
  destruct (Z.gtb_spec (Z.of_nat (length drops)) 100).
  - replace (length drops - Z.to_nat 100)%nat with 1%nat by lia.
    destruct drops; reflexivity.
  - replace (length drops - Z.to_nat 100)%nat with 0%nat by lia.
    reflexivity.
Qed.

Lemma step_keeps_bound (c : call) (d : t) :
  (Z.of_nat (length (m_drops d)) <= MAX_DROP_HISTORY)%Z ->
  (Z.of_nat (length (m_drops (step d c))) <= MAX_DROP_HISTORY)%Z.
Proof.
  intros Hlen. destruct c as [now cur avg | p | r | ]; simpl.
  - destruct (update_cases now cur avg d) as [E | (_ & _ & E)];
      rewrite E; simpl; [exact Hlen | ].
    apply length_limit_history. rewrite length_app. simpl. lia.
  - exact Hlen.
  - exact Hlen.
  - unfold MAX_DROP_HISTORY. lia.
Qed.

Lemma callbacks_fold (calls : list call) (d : t) :
  m_callback d = true ->
  Forall (fun c => is_update_or_threshold c = true) calls ->
  (Z.of_nat (length (m_drops d)) <= MAX_DROP_HISTORY)%Z ->
  m_drops (fold_left step calls d)
  = RingBuffer.keep_last MAX_DROP_HISTORY (m_drops d ++ callbacks d calls).
Proof.
  intros Hcb Hok. revert d Hcb.
  induction Hok as [ | c calls Hc _ IH]; intros d Hcb Hlen; simpl.
  - rewrite app_nil_r. symmetry.
    apply RingBufferFacts.keep_last_short. exact Hlen.
  - pose proof (step_keeps_bound c d Hlen) as Hlen'.
    destruct c as [now cur avg | p | r | ]; try discriminate; simpl.
    + destruct (update_cases now cur avg d) as [E | (_ & _ & E)].
      * rewrite E. simpl. apply IH; assumption.
      * simpl in Hlen'. rewrite E in Hlen' |- *. simpl in Hlen' |- *.
        rewrite IH by assumption. simpl. rewrite Hcb.
        rewrite limit_history_keep_last
          by (rewrite length_app; simpl; lia).
        rewrite RingBufferFacts.keep_last_app, <- app_assoc. reflexivity.
    + rewrite IH by assumption. reflexivity.
Qed.

Lemma callbacks_none (calls : list call) (d : t) :
  m_callback d = false ->
  Forall (fun c => is_update_or_threshold c = true) calls ->
  callbacks d calls = [].
Proof.
  intros Hcb Hok. revert d Hcb.
  induction Hok as [ | c calls Hc _ IH]; intros d Hcb; simpl.
  - reflexivity.
  - destruct c as [now cur avg | p | r | ]; try discriminate; simpl.
    + destruct (update_cases now cur avg d) as [E | (_ & _ & E)];
        rewrite E; simpl; rewrite ?Hcb; apply IH;
        first [exact Hcb | reflexivity].
    + apply IH. exact Hcb.
Qed.

(** X17. Callback and history agree: once a callback is registered,
    and as long as the history is not cleared and the callback not
    replaced, the history is the earlier history followed by the events
    passed to the callback, cut to its last 100 entries; a detector
    without a callback records the same way and calls nothing. *)
Theorem history_is_last_callbacks
  (now0 : time_point) (thr : Q) (calls0 calls : list call) :
  Forall (fun c => is_update_or_threshold c = true) calls ->
  getDrops (fold_left step calls (setDropCallback true (run now0 thr calls0)))
  = RingBuffer.keep_last 100
      (getDrops (setDropCallback true (run now0 thr calls0))
       ++ callbacks (setDropCallback true (run now0 thr calls0)) calls) /\
  callbacks (setDropCallback false (run now0 thr calls0)) calls = [].
Proof.
  intros Hok. split.
  - apply callbacks_fold; [reflexivity | exact Hok | ].
    apply (history_invariant now0 thr calls0).
  - apply callbacks_none; [reflexivity | exact Hok].
Qed.

Lemma history_is_last_callbacks_witness :
  Forall (fun c => is_update_or_threshold c = true)
    [Update 600000000 80 100; SetThreshold 30; Update 1200000000 50 100] /\
  getDrops
    (fold_left step
       [Update 600000000 80 100; SetThreshold 30; Update 1200000000 50 100]
       (setDropCallback true (run 0 15 [])))
  = RingBuffer.keep_last 100
      (getDrops (setDropCallback true (run 0 15 []))
       ++ callbacks (setDropCallback true (run 0 15 []))
            [Update 600000000 80 100; SetThreshold 30;
             Update 1200000000 50 100]).
Proof.
  assert (H : Forall (fun c => is_update_or_threshold c = true)
                [Update 600000000 80 100; SetThreshold 30;
                 Update 1200000000 50 100])
    by (repeat constructor).
  split; [exact H | ].
  apply (history_is_last_callbacks 0 15 []
           [Update 600000000 80 100; SetThreshold 30;
            Update 1200000000 50 100] H).
Defined.




Lemma threshold_stays_clamped (calls : list call) (d : t) :
  5 <= m_thresholdPercent d <= 50 ->
  5 <= m_thresholdPercent (fold_left step calls d) <= 50.
Proof.
  revert d. induction calls as [ | c calls IH]; intros d Hd; simpl.
  - exact Hd.
  - apply IH. destruct c as [now cur avg | p | r | ]; simpl.
    + destruct (update_cases now cur avg d) as [E | (_ & _ & E)];
        rewrite E; exact Hd.
    + apply clamp_range. lra.
    + exact Hd.
    + exact Hd.
Qed.

Lemma threshold_kept (calls : list call) (d : t) :
  Forall (fun c => is_not_setThreshold c = true) calls ->
  m_thresholdPercent (fold_left step calls d) = m_thresholdPercent d.
Proof.
  intros Hok. revert d.
  induction Hok as [ | c calls Hc _ IH]; intros d; simpl.
  - reflexivity.
  - rewrite IH. destruct c as [now cur avg | p | r | ]; try discriminate.
    + simpl. destruct (update_cases now cur avg d) as [E | (_ & _ & E)];
        rewrite E; reflexivity.
    + reflexivity.
    + reflexivity.
Qed.

(** X19. The threshold over a run of calls: only [setThreshold] ever
    changes it, so until the first [setThreshold] it is the value given
    to the constructor, and from the first [setThreshold] on it lies in
    [5, 50] whatever calls follow; a value already in [5, 50] is stored
    as it is. *)
Theorem threshold_over_calls
  (now0 : time_point) (thr p : Q) (calls calls' : list call) :
  (Forall (fun c => is_not_setThreshold c = true) calls ->
   getThreshold (run now0 thr calls) = thr) /\
  5 <= getThreshold (run now0 thr (calls ++ SetThreshold p :: calls')) <= 50 /\
  (5 <= p <= 50 ->
   Forall (fun c => is_not_setThreshold c = true) calls' ->
   getThreshold (run now0 thr (calls ++ SetThreshold p :: calls')) == p).
Proof.
  unfold getThreshold. split; [ | split].
  - intros Hok. unfold run. rewrite (threshold_kept calls _ Hok). reflexivity.
  - unfold run. rewrite fold_left_app. simpl.
    apply threshold_stays_clamped. simpl. apply clamp_range. lra.
  - intros Hp Hok. unfold run. rewrite fold_left_app. simpl.
    rewrite (threshold_kept calls' _ Hok). simpl.
    apply clamp_inside. exact Hp.
Qed.

Lemma threshold_over_calls_witness :
  Forall (fun c => is_not_setThreshold c = true)
    [Update 600000000 80 100; ClearHistory] /\
  getThreshold (run 0 3 [Update 600000000 80 100; ClearHistory]) = 3.
Proof.
  assert (H : Forall (fun c => is_not_setThreshold c = true)
                [Update 600000000 80 100; ClearHistory])
    by (repeat constructor).
  split; [exact H | ].
  apply (proj1 (threshold_over_calls 0 3 0
                  [Update 600000000 80 100; ClearHistory] []) H).
Defined.

End DropDetectorLaws.

(** ** Laws of Timer *)

Module TimerLaws.
Import Timer DoubleFacts.
#[local] Open Scope Q_scope.

Lemma int64_small (x : Z) : (- 2 ^ 63 <= x < 2 ^ 63)%Z -> int64 x = x.
Proof.
  intros H. unfold int64.
  rewrite Z.mod_small by (change (2 ^ 64)%Z with (2 ^ 63 + 2 ^ 63)%Z; lia).
  lia.
Qed.

Lemma counter_difference (a b : Z) :
  is_counter a -> is_counter b -> int64 (b - a) = (b - a)%Z.
Proof.
  unfold is_counter. intros Ha Hb. apply int64_small. lia.
Qed.


Lemma last_cons_default (l : list Z) (a d1 d2 : Z) :
  List.last (a :: l) d1 = List.last (a :: l) d2.
Proof.
  revert a. induction l as [ | b l IH]; intros a.
  - reflexivity.
  - change (List.last (b :: l) d1 = List.last (b :: l) d2). apply IH.
Qed.

Lemma deltas_from (readings : list Z) (tm : t) :
  m_frequency (snd (deltas readings tm)) = m_frequency tm /\
  m_startTime (snd (deltas readings tm)) = m_startTime tm /\
  m_lastTime (snd (deltas readings tm)) = List.last readings (m_lastTime tm) /\
  length (fst (deltas readings tm)) = length readings.
Proof.
  revert tm. induction readings as [ | c readings IH]; intros tm.
  - simpl. repeat split; reflexivity.
  - simpl.
    destruct (deltas readings
                {| m_frequency := m_frequency tm;
                   m_startTime := m_startTime tm;
                   m_lastTime := c |}) as [ds tm2] eqn:E.
    specialize (IH {| m_frequency := m_frequency tm;
                      m_startTime := m_startTime tm;
                      m_lastTime := c |}).
    rewrite E in IH. simpl in IH.
    destruct IH as (Hf & Hs & Hlast & Hlen).
    simpl. split; [exact Hf | ]. split; [exact Hs | ].
    split; [ | rewrite Hlen; reflexivity].
    rewrite Hlast. destruct readings as [ | z readings]; [reflexivity | ].
    change (List.last (c :: z :: readings) (m_lastTime tm))
      with (List.last (z :: readings) (m_lastTime tm)).
    apply last_cons_default.
Qed.

Lemma deltas_sign (R : Z -> Z -> Prop) (P : Q -> Prop)
  (readings : list Z) (tm : t) :
  (forall a b : Z, is_counter a -> is_counter b -> R a b ->
     P (inject_Z (b - a) / inject_Z (m_frequency tm))) ->
  is_counter (m_lastTime tm) -> Forall is_counter readings ->
  Sorted R (m_lastTime tm :: readings) ->
  Forall P (fst (deltas readings tm)).
Proof.
  intros HP Hl Hr. revert tm HP Hl.
  induction Hr as [ | c readings Hc _ IH]; intros tm HP Hl Hs.
  - constructor.
  - simpl.
    destruct (deltas readings
                {| m_frequency := m_frequency tm;
                   m_startTime := m_startTime tm;
                   m_lastTime := c |}) as [ds tm2] eqn:E.
    apply Sorted_inv in Hs. destruct Hs as [Hs Hhd]. apply HdRel_inv in Hhd.
    simpl. constructor.
    + rewrite (counter_difference _ _ Hl Hc). apply HP; assumption.
    + specialize (IH {| m_frequency := m_frequency tm;
                        m_startTime := m_startTime tm;
                        m_lastTime := c |} HP Hc Hs).
      rewrite E in IH. exact IH.
Qed.

(** X20. The timer follows the counter: whatever the readings,
    [getDeltaTime()] returns one delta per reading, leaves the frequency
    and the start time alone and remembers the last reading; and for
    readings within the counter range and a positive frequency, the
    deltas are not negative when the counter does not go back and
    positive when it advances at every reading. *)
Theorem deltas_follow_the_counter (frequency start : Z) (readings : list Z) :
  is_counter start -> Forall is_counter readings ->
  length (fst (deltas readings (create frequency start))) = length readings /\
  m_frequency (snd (deltas readings (create frequency start))) = frequency /\
  m_startTime (snd (deltas readings (create frequency start))) = start /\
  m_lastTime (snd (deltas readings (create frequency start)))
    = List.last readings start /\
  ((0 < frequency)%Z -> Sorted Z.le (start :: readings) ->
   Forall (fun d => 0 <= d)
     (fst (deltas readings (create frequency start)))) /\
  ((0 < frequency)%Z -> Sorted Z.lt (start :: readings) ->
   Forall (fun d => 0 < d)
     (fst (deltas readings (create frequency start)))).
Proof.
  intros Hs Hr.
  destruct (deltas_from readings (create frequency start))
    as (Hf & Hst & Hlast & Hlen).
  simpl in Hf, Hst, Hlast.
  split; [exact Hlen | ]. split; [exact Hf | ]. split; [exact Hst | ].
  split; [exact Hlast | ]. split.
  - intros Hfreq Hsorted.
    apply (deltas_sign Z.le); try assumption.
    intros a b _ _ Hab. simpl.
    apply Qle_shift_div_l.
    + change 0 with (inject_Z 0). rewrite <- Zlt_Qlt. exact Hfreq.
    + rewrite Qmult_0_l. change 0 with (inject_Z 0). rewrite <- Zle_Qle. lia.
  - intros Hfreq Hsorted.
    apply (deltas_sign Z.lt); try assumption.
    intros a b _ _ Hab. simpl.
    apply Qlt_shift_div_l.
    + change 0 with (inject_Z 0). rewrite <- Zlt_Qlt. exact Hfreq.
    + rewrite Qmult_0_l. change 0 with (inject_Z 0). rewrite <- Zlt_Qlt. lia.
Qed.

Lemma deltas_follow_the_counter_witness :
  is_counter 1000 /\ Forall is_counter [1160%Z; 1330%Z; 1500%Z] /\
  m_lastTime (snd (deltas [1160%Z; 1330%Z; 1500%Z] (create 10000 1000)))
    = List.last [1160%Z; 1330%Z; 1500%Z] 1000%Z.
Proof.
  assert (H1 : is_counter 1000) by (unfold is_counter; lia).
  assert (H2 : Forall is_counter [1160%Z; 1330%Z; 1500%Z])
    by (repeat constructor; unfold is_counter; lia).
  split; [exact H1 | ]. split; [exact H2 | ].
  apply (proj1 (proj2 (proj2 (proj2
           (deltas_follow_the_counter 10000 1000 [1160%Z; 1330%Z; 1500%Z]
              H1 H2))))).
Defined.

End TimerLaws.

(** ** Laws of the frame loop *)

Module AppLaws.
Import App DoubleFacts.
#[local] Open Scope Q_scope.











End AppLaws.

(** ** Facts about std::string *)

Module StdStringLaws.
Import Stdlib.Strings.Ascii stdpp.strings stdpp.gmap.
Import StdString.
#[local] Open Scope Z_scope.

Lemma size_nonneg (s : list ascii) : 0 <= size s.
Proof. unfold size. lia. Qed.

Lemma size_app (a b : list ascii) : size (a ++ b) = size a + size b.
Proof. unfold size. rewrite length_app. lia. Qed.

Lemma size_cons (c : ascii) (s : list ascii) : size (c :: s) = 1 + size s.
Proof. unfold size. simpl. lia. Qed.

Lemma index_step (i : Z) : 0 <= i -> i + 1 < 2 ^ 64 -> size_t (i + 1) = i + 1.
Proof. intros. apply size_t_small. unfold is_size_t, SIZE_WIDTH. lia. Qed.

Lemma find_first_not_of_skip (chars l rest : list ascii) (i : Z) :
  all_in chars l -> 0 <= i -> i + size l < 2 ^ 64 ->
  find_first_not_of_from chars (l ++ rest) i
  = find_first_not_of_from chars rest (i + size l).
Proof.
  intros Hl. revert i.
  induction Hl as [ | c l Hc Hl IH]; intros i Hi Hb; simpl.
  - f_equal. unfold size. simpl. lia.
  - rewrite size_cons in Hb. pose proof (size_nonneg l).
    rewrite Hc, index_step by lia. rewrite IH by lia.
    f_equal. rewrite size_cons. lia.
Qed.

Lemma find_last_not_of_skip (chars r : list ascii) (i best : Z) :
  all_in chars r -> find_last_not_of_from chars r i best = best.
Proof.
  intros Hr. revert i.
  induction Hr as [ | c r Hc Hr IH]; intros i; simpl.
  - reflexivity.
  - rewrite Hc. apply IH.
Qed.

Lemma find_last_not_of_at (chars a r : list ascii) (c : ascii) (i best : Z) :
  char_in c chars = false -> all_in chars r ->
  0 <= i -> i + size a + 1 < 2 ^ 64 ->
  find_last_not_of_from chars (a ++ c :: r) i best = i + size a.
Proof.
  intros Hc Hr. revert i best.
  induction a as [ | x a IH]; intros i best Hi Hb; simpl.
  - rewrite Hc, find_last_not_of_skip by exact Hr. unfold size. simpl. lia.
  - rewrite size_cons in Hb. pose proof (size_nonneg a).
    rewrite index_step by lia. rewrite IH by lia. rewrite size_cons. lia.
Qed.

Lemma find_from_at (c : ascii) (a rest : list ascii) (i : Z) :
  ~ In c a -> 0 <= i -> i + size a < 2 ^ 64 ->
  find_from c (a ++ c :: rest) i = i + size a.
Proof.
  revert i. induction a as [ | x a IH]; intros i Hn Hi Hb; simpl.
  - rewrite Ascii.eqb_refl. unfold size. simpl. lia.
  - rewrite size_cons in Hb. pose proof (size_nonneg a).
    destruct (Ascii.eqb_spec x c) as [-> | Hx].
    + exfalso. apply Hn. now left.
    + rewrite index_step by lia. rewrite IH by (simpl in Hn; tauto || lia).
      rewrite size_cons. lia.
Qed.

Lemma find_from_none (c : ascii) (a : list ascii) (i : Z) :
  ~ In c a -> find_from c a i = npos.
Proof.
  revert i. induction a as [ | x a IH]; intros i Hn; simpl.
  - reflexivity.
  - destruct (Ascii.eqb_spec x c) as [-> | Hx].
    + exfalso. apply Hn. now left.
    + apply IH. simpl in Hn. tauto.
Qed.

Lemma substr_middle (l m r : list ascii) :
  substr (size l) (size m) (l ++ m ++ r) = m.
Proof.
  unfold substr. rewrite !size_app.
  pose proof (size_nonneg r).
  replace (Z.min (size m) (size l + (size m + size r) - size l)) with (size m) by lia.
  unfold size. rewrite !Nat2Z.id.
  rewrite drop_app_length. apply take_app_length.
Qed.

Lemma substr_tail (l m : list ascii) :
  size m < npos -> substr (size l) npos (l ++ m) = m.
Proof.
  intros Hm. unfold substr. rewrite size_app.
  replace (Z.min npos (size l + size m - size l)) with (size m) by lia.
  unfold size. rewrite !Nat2Z.id.
  rewrite drop_app_length. apply firstn_all.
Qed.

(** A non-empty trimmed string ends with a character that is not one
    of [chars]. *)
Lemma trimmed_split (chars m : list ascii) :
  trimmed chars m -> m <> [] ->
  exists c0 a c, m = a ++ [c] /\ head m = Some c0
    /\ char_in c0 chars = false /\ char_in c chars = false.
Proof.
  intros Ht Hne. destruct m as [ | c0 m']; [congruence | ].
  destruct Ht as [H0 H1].
  destruct (exists_last (l := c0 :: m')) as [a [c E]]; [congruence | ].
  exists c0, a, c. split; [exact E | ]. split; [reflexivity | ]. split; [exact H0 | ].
  rewrite E in H1. rewrite List.last_last in H1. exact H1.
Qed.

Lemma first_not_of_middle (chars l m r : list ascii) :
  all_in chars l -> all_in chars r -> trimmed chars m ->
  size (l ++ m ++ r) < npos ->
  find_first_not_of chars (l ++ m ++ r)
  = match m with [] => npos | _ => size l end.
Proof.
  intros Hl Hr Ht Hb. unfold find_first_not_of.
  rewrite !size_app in Hb. unfold npos in Hb.
  pose proof (size_nonneg l) as Pl. pose proof (size_nonneg m) as Pm.
  pose proof (size_nonneg r) as Pr.
  rewrite find_first_not_of_skip by (try exact Hl; lia).
  destruct m as [ | c0 m']; simpl.
  - rewrite <- (app_nil_r r).
    rewrite find_first_not_of_skip by (try exact Hr; lia). reflexivity.
  - destruct Ht as [H0 _]. rewrite H0. lia.
Qed.

Lemma last_not_of_middle (chars l m r : list ascii) :
  all_in chars l -> all_in chars r -> trimmed chars m ->
  size (l ++ m ++ r) < npos ->
  find_last_not_of chars (l ++ m ++ r)
  = match m with [] => npos | _ => size l + size m - 1 end.
Proof.
  intros Hl Hr Ht Hb. unfold find_last_not_of.
  rewrite !size_app in Hb. unfold npos in Hb.
  pose proof (size_nonneg l) as Pl. pose proof (size_nonneg m) as Pm.
  pose proof (size_nonneg r) as Pr.
  destruct m as [ | c0 m'].
  - simpl. apply find_last_not_of_skip. apply Forall_app. split; assumption.
  - destruct (trimmed_split chars (c0 :: m') Ht ltac:(congruence))
      as (c0' & a & c & E & _ & _ & Hc).
    rewrite E. rewrite E, size_app in Hb. rewrite size_app.
    replace (l ++ (a ++ [c]) ++ r) with ((l ++ a) ++ c :: r)
      by (rewrite <- !app_assoc; reflexivity).
    rewrite find_last_not_of_at; rewrite ?size_app; try assumption; try lia.
    all: change (size [c]) with 1 in *; lia.
Qed.


Lemma all_in_app (chars a b : list ascii) :
  all_in chars a -> all_in chars b -> all_in chars (a ++ b).
Proof. intros Ha Hb. apply Forall_app. split; assumption. Qed.

Lemma trimmed_intro (chars a : list ascii) (c0 c : ascii) :
  head (a ++ [c]) = Some c0 ->
  char_in c0 chars = false -> char_in c chars = false ->
  trimmed chars (a ++ [c]).
Proof.
  intros Hh H0 Hc. unfold trimmed.
  destruct (a ++ [c]) as [ | x m] eqn:E; [exact I | ].
  injection Hh as ->. split; [exact H0 | ].
  rewrite <- E, List.last_last. exact Hc.
Qed.

(** The leading characters of [chars] split off. *)
Lemma split_front (chars s : list ascii) :
  exists l s', s = l ++ s' /\ all_in chars l
    /\ match s' with [] => True | c :: _ => char_in c chars = false end.
Proof.
  induction s as [ | c s (l & s' & E & Hl & Hs)].
  - exists [], []. repeat split. constructor.
  - destruct (char_in c chars) eqn:Hc.
    + exists (c :: l), s'. rewrite E. repeat split; [ | exact Hs].
      constructor; assumption.
    + exists [], (c :: s). repeat split; [constructor | exact Hc].
Qed.

(** The trailing characters of [chars] split off. *)
Lemma split_back (chars s : list ascii) :
  exists s' r, s = s' ++ r /\ all_in chars r
    /\ (s' = [] \/ exists a c, s' = a ++ [c] /\ char_in c chars = false).
Proof.
  induction s as [ | c s (s' & r & E & Hr & Hs)] using rev_ind.
  - exists [], []. repeat split; [constructor | now left].
  - destruct (char_in c chars) eqn:Hc.
    + destruct Hs as [-> | Hs].
      * exists [], (r ++ [c]). simpl in E. rewrite E.
        repeat split; [ | now left].
        apply all_in_app; [exact Hr | ]. constructor; [exact Hc | constructor].
      * exists s', (r ++ [c]). rewrite E, <- app_assoc.
        repeat split; [ | now right].
        apply all_in_app; [exact Hr | ]. constructor; [exact Hc | constructor].
    + exists (s ++ [c]), []. rewrite app_nil_r.
      repeat split; [constructor | ]. right. exists s, c. split; [reflexivity | exact Hc].
Qed.

(** Every string is a trimmed string between two runs of [chars]. *)
Lemma split_middle (chars s : list ascii) :
  exists l m r, s = l ++ m ++ r /\ all_in chars l /\ all_in chars r
    /\ trimmed chars m /\ head m = head (drop (List.length l) s).
Proof.
  destruct (split_front chars s) as (l & s' & E & Hl & Hs).
  destruct s' as [ | c0 s''].
  - exists l, [], []. rewrite E, drop_app_length.
    repeat split; [exact Hl | constructor].
  - destruct (split_back chars (c0 :: s'')) as (m & r & E' & Hr & Hm).
    destruct Hm as [-> | (a & c & -> & Hc)].
    + simpl in E'. rewrite <- E' in Hr. inversion Hr; congruence.
    + exists l, (a ++ [c]), r. rewrite E, E', drop_app_length.
      repeat split; try assumption.
      * assert (Hh : head (a ++ [c]) = Some c0).
        { destruct a; simpl in E'; injection E' as -> _; reflexivity. }
        apply (trimmed_intro chars a c0 c); assumption.
      * rewrite <- app_assoc. destruct a; reflexivity.
Qed.


Lemma getline_items_break (d : ascii) (s rest cur : list ascii) :
  getline_items d (s ++ d :: rest) cur
  = getline_items d (s ++ [d]) cur ++ getline_items d rest [].
Proof.
  revert cur. induction s as [ | c s IH]; intros cur; simpl.
  - rewrite Ascii.eqb_refl. reflexivity.
  - destruct (Ascii.eqb c d); [ | apply IH].
    rewrite IH. reflexivity.
Qed.

Lemma getline_items_line (d : ascii) (a rest cur : list ascii) :
  ~ In d a ->
  getline_items d (a ++ d :: rest) cur
  = (rev cur ++ a) :: getline_items d rest [].
Proof.
  revert cur. induction a as [ | c a IH]; intros cur Hn; simpl.
  - rewrite Ascii.eqb_refl, app_nil_r. reflexivity.
  - destruct (Ascii.eqb_spec c d) as [-> | Hc].
    + exfalso. apply Hn. now left.
    + rewrite IH by (simpl in Hn; tauto). simpl.
      rewrite <- app_assoc. reflexivity.
Qed.

Lemma getline_items_end (d : ascii) (b cur : list ascii) :
  ~ In d b -> rev cur ++ b <> [] ->
  getline_items d b cur = [rev cur ++ b].
Proof.
  revert cur. induction b as [ | c b IH]; intros cur Hn Hne; simpl.
  - rewrite app_nil_r in Hne |- *.
    destruct cur; [simpl in Hne; congruence | reflexivity].
  - destruct (Ascii.eqb_spec c d) as [-> | Hc].
    + exfalso. apply Hn. now left.
    + rewrite IH; simpl; rewrite <- ?app_assoc; simpl.
      * reflexivity.
      * simpl in Hn. tauto.
      * destruct (rev cur); discriminate.
Qed.

(** A text that is empty or ends with the delimiter can be cut
    there. *)
Lemma getlines_app (d : ascii) (pre rest : list ascii) :
  List.last pre d = d ->
  getlines d (pre ++ rest) = getlines d pre ++ getlines d rest.
Proof.
  intros Hl. unfold getlines.
  induction pre as [ | c p _] using rev_ind; [reflexivity | ].
  rewrite List.last_last in Hl. subst c.
  rewrite <- app_assoc. simpl.
  apply getline_items_break.
Qed.


Lemma getline_items_pieces (d : ascii) (s cur x : list ascii) :
  In x (getline_items d s cur) -> ~ In d cur ->
  ~ In d x /\ size x <= size cur + size s.
Proof.
  revert cur. induction s as [ | c s IH]; intros cur Hin Hcur; simpl in Hin.
  - destruct cur as [ | c0 cur]; [destruct Hin | ].
    destruct Hin as [<- | []]. split.
    + rewrite <- in_rev. exact Hcur.
    + unfold size. rewrite length_rev. simpl. lia.
  - rewrite size_cons. pose proof (size_nonneg s) as Ps.
    destruct (Ascii.eqb_spec c d) as [-> | Hc].
    + destruct Hin as [<- | Hin].
      * split; [rewrite <- in_rev; exact Hcur | ].
        unfold size. rewrite length_rev. lia.
      * destruct (IH [] Hin) as [Hx Hsz]; [intros [] | ].
        split; [exact Hx | ]. pose proof (size_nonneg cur).
        change (size []) with 0 in Hsz. lia.
    + destruct (IH (c :: cur) Hin) as [Hx Hsz].
      * intros [E | Hin']; [congruence | tauto].
      * split; [exact Hx | ]. rewrite size_cons in Hsz. lia.
Qed.

Lemma erase_front (l rest : list ascii) : erase 0 (size l) (l ++ rest) = rest.
Proof.
  unfold erase. rewrite size_app. pose proof (size_nonneg rest).
  replace (0 + Z.min (size l) (size l + size rest - 0)) with (size l) by lia.
  unfold size. rewrite Nat2Z.id, drop_app_length. reflexivity.
Qed.

Lemma erase_all (s : list ascii) : size s < npos -> erase 0 npos s = [].
Proof.
  intros Hb. unfold erase.
  replace (0 + Z.min npos (size s - 0)) with (size s) by lia.
  unfold size. rewrite Nat2Z.id, drop_all. reflexivity.
Qed.

Lemma erase_tail (m r : list ascii) :
  size r < npos -> erase (size m) npos (m ++ r) = m.
Proof.
  intros Hb. unfold erase. rewrite size_app.
  replace (size m + Z.min npos (size m + size r - size m))
    with (size (m ++ r)) by (rewrite size_app; lia).
  unfold size. rewrite !Nat2Z.id, drop_all, take_app_length, app_nil_r.
  reflexivity.
Qed.

End StdStringLaws.

(** ** Facts about Config *)

Module ConfigLaws.
Import Stdlib.Strings.Ascii stdpp.strings stdpp.gmap.
Import StdString Config StdStringLaws.
#[local] Open Scope Z_scope.

Lemma trim_middle (l m r : list ascii) :
  all_in WHITESPACE l -> all_in WHITESPACE r -> trimmed WHITESPACE m ->
  size (l ++ m ++ r) < npos ->
  trim (l ++ m ++ r) = m.
Proof.
  intros Hl Hr Hm Hb. unfold trim.
  rewrite first_not_of_middle, last_not_of_middle by assumption.
  rewrite !size_app in Hb. unfold npos in Hb.
  pose proof (size_nonneg l) as Pl. pose proof (size_nonneg m) as Pm.
  pose proof (size_nonneg r) as Pr.
  destruct m as [ | c0 m']; [reflexivity | ].
  destruct (Z.eqb_spec (size l) npos) as [E | _];
    [exfalso; unfold npos in E; lia | ].
  replace (size l + size (c0 :: m') - 1 - size l) with (size (c0 :: m') - 1) by lia.
  rewrite size_cons in *. pose proof (size_nonneg m') as Pm'.
  rewrite (size_t_small (1 + size m' - 1))
    by (unfold is_size_t, SIZE_WIDTH; lia).
  rewrite size_t_small by (unfold is_size_t, SIZE_WIDTH; lia).
  replace (1 + size m' - 1 + 1) with (size (c0 :: m')) by (rewrite size_cons; lia).
  apply substr_middle.
Qed.

Lemma trim_trimmed (m : list ascii) :
  trimmed WHITESPACE m -> size m < npos -> trim m = m.
Proof.
  intros Hm Hb.
  rewrite <- (app_nil_r m) at 1.
  apply (trim_middle [] m []); try constructor; try assumption.
  simpl. rewrite app_nil_r. exact Hb.
Qed.


Lemma last_snoc (a : list ascii) (c d : ascii) : List.last (a ++ [c]) d = c.
Proof. apply List.last_last. Qed.

Lemma parseLine_header (st : IniState) (S : list ascii) :
  size S + 2 < npos ->
  parseLine st ("["%char :: S ++ ["]"%char])
  = {| currentSection := S; data := data st |}.
Proof.
  intros Hb.
  assert (Hsz : size ("["%char :: S ++ ["]"%char]) = size S + 2).
  { rewrite size_cons, size_app. change (size ["]"%char]) with 1. lia. }
  assert (Hlast : forall d, List.last ("["%char :: S ++ ["]"%char]) d = "]"%char).
  { intros d. apply (last_snoc ("["%char :: S)). }
  assert (Ht : trim ("["%char :: S ++ ["]"%char]) = "["%char :: S ++ ["]"%char]).
  { apply trim_trimmed; [ | lia].
    unfold trimmed. rewrite Hlast. split; reflexivity. }
  unfold parseLine. rewrite Ht. cbv zeta iota beta.
  rewrite Hlast, Hsz.
  change (Ascii.eqb "[" "#" || Ascii.eqb "[" ";") with false.
  change (Ascii.eqb "[" "[" && Ascii.eqb "]" "]") with true.
  cbv iota. f_equal.
  pose proof (size_nonneg S) as PS. unfold npos in Hb.
  rewrite size_t_small by (unfold is_size_t, SIZE_WIDTH; lia).
  replace (size S + 2 - 2) with (size S) by lia.
  apply (substr_middle ["["%char] S ["]"%char]).
Qed.


Lemma trim_skip_front (l s : list ascii) :
  all_in WHITESPACE l -> size (l ++ s) < npos -> trim (l ++ s) = trim s.
Proof.
  intros Hl Hb.
  destruct (split_middle WHITESPACE s) as (l2 & m & r2 & E & Hl2 & Hr2 & Hm & _).
  rewrite E in Hb |- *.
  rewrite size_app in Hb. pose proof (size_nonneg l) as Pl.
  rewrite (trim_middle l2 m r2) by (try assumption; lia).
  rewrite app_assoc.
  apply trim_middle; try assumption.
  - apply all_in_app; assumption.
  - rewrite <- app_assoc, size_app. exact Hb.
Qed.

Lemma trim_skip_back (s r : list ascii) :
  all_in WHITESPACE r -> size (s ++ r) < npos -> trim (s ++ r) = trim s.
Proof.
  intros Hr Hb.
  destruct (split_middle WHITESPACE s) as (l2 & m & r2 & E & Hl2 & Hr2 & Hm & _).
  rewrite E in Hb |- *.
  rewrite size_app in Hb. pose proof (size_nonneg r) as Pr.
  rewrite (trim_middle l2 m r2) by (try assumption; lia).
  rewrite <- !app_assoc.
  apply trim_middle; try assumption.
  - apply all_in_app; assumption.
  - rewrite !app_assoc, size_app, <- !app_assoc. exact Hb.
Qed.

Lemma head_trim (c0 : ascii) (s : list ascii) :
  char_in c0 WHITESPACE = false -> size (c0 :: s) < npos ->
  head (trim (c0 :: s)) = Some c0.
Proof.
  intros H0 Hb.
  destruct (split_back WHITESPACE (c0 :: s)) as (m & r & E & Hr & Hm).
  destruct Hm as [-> | (a & c & -> & Hc)].
  - simpl in E. rewrite <- E in Hr. inversion Hr; congruence.
  - assert (Hh : head (a ++ [c]) = Some c0).
    { destruct a; simpl in E; injection E as -> _; reflexivity. }
    rewrite E in Hb |- *.
    change ((a ++ [c]) ++ r) with ([] ++ (a ++ [c]) ++ r) in Hb |- *.
    rewrite (trim_middle [] (a ++ [c]) r); try assumption.
    + constructor.
    + apply (trimmed_intro WHITESPACE a c0 c); assumption.
Qed.

Lemma parseLine_pair (st : IniState) (raw rest k v : list ascii) (c0 : ascii) :
  trim raw = c0 :: rest ->
  c0 :: rest = k ++ "="%char :: v ->
  c0 <> "#"%char -> c0 <> ";"%char -> c0 <> "["%char ->
  ~ In "="%char k ->
  size (k ++ "="%char :: v) < npos ->
  currentSection st <> [] ->
  parseLine st raw
  = {| currentSection := currentSection st;
       data := <[currentSection st ++ lit "." ++ trim k := trim v]> (data st) |}.
Proof.
  intros Ht E H1 H2 H3 Hk Hb Hs.
  unfold parseLine. rewrite Ht. cbv zeta iota beta.
  apply Ascii.eqb_neq in H1, H2, H3. rewrite H1, H2, H3.
  cbn [orb andb]. rewrite E.
  rewrite size_app, size_cons in Hb. unfold npos in Hb.
  pose proof (size_nonneg k) as Pk. pose proof (size_nonneg v) as Pv.
  unfold find. rewrite find_from_at by (try assumption; lia).
  destruct (Z.eqb_spec (0 + size k) npos) as [E' | _];
    [exfalso; unfold npos in E'; lia | ].
  replace (0 + size k) with (size k) by lia.
  change (substr 0 (size k) (k ++ "="%char :: v))
    with (substr (size []) (size k) ([] ++ k ++ "="%char :: v)).
  rewrite (substr_middle [] k ("="%char :: v)).
  rewrite size_t_small by (unfold is_size_t, SIZE_WIDTH; lia).
  replace (k ++ "="%char :: v) with ((k ++ ["="%char]) ++ v)
    by (rewrite <- app_assoc; reflexivity).
  replace (size k + 1) with (size (k ++ ["="%char]))
    by (rewrite size_app; reflexivity).
  rewrite substr_tail by (unfold npos; lia).
  destruct (currentSection st); [congruence | reflexivity].
Qed.

Lemma parseLine_assign (st : IniState) (k v : list ascii) :
  currentSection st <> [] ->
  ~ In "="%char k ->
  size (k ++ "="%char :: v) < npos ->
  (forall c, head (trim k) = Some c ->
     c <> "#"%char /\ c <> ";"%char /\ c <> "["%char) ->
  parseLine st (k ++ "="%char :: v)
  = {| currentSection := currentSection st;
       data := <[currentSection st ++ lit "." ++ trim k := trim v]> (data st) |}.
Proof.
  intros Hs Hk Hb Hc.
  destruct (split_front WHITESPACE k) as (lk & k' & Ek & Hlk & Hk').
  destruct (split_back WHITESPACE v) as (v' & rv & Ev & Hrv & Hv').
  rewrite size_app, size_cons in Hb.
  assert (Hbk : size (lk ++ k') < npos).
  { rewrite <- Ek. pose proof (size_nonneg v). lia. }
  assert (Hbv : size (v' ++ rv) < npos).
  { rewrite <- Ev. pose proof (size_nonneg k). lia. }
  assert (Etk : trim k = trim k').
  { rewrite Ek. apply trim_skip_front; assumption. }
  assert (Etv : trim v = trim v').
  { rewrite Ev. apply trim_skip_back; assumption. }
  assert (Hk'' : ~ In "="%char k').
  { intros Hin. apply Hk. rewrite Ek. apply in_or_app. now right. }
  assert (Hsz : size (k' ++ "="%char :: v') < npos).
  { rewrite Ek, Ev, !size_app in Hb. rewrite size_app, size_cons.
    pose proof (size_nonneg lk). pose proof (size_nonneg rv). lia. }
  assert (Hm : trimmed WHITESPACE (k' ++ "="%char :: v')
               /\ exists c0 rest, k' ++ "="%char :: v' = c0 :: rest
                    /\ c0 <> "#"%char /\ c0 <> ";"%char /\ c0 <> "["%char).
  { assert (Hhead : exists c0 rest, k' ++ "="%char :: v' = c0 :: rest
                      /\ char_in c0 WHITESPACE = false
                      /\ c0 <> "#"%char /\ c0 <> ";"%char /\ c0 <> "["%char).
    { destruct k' as [ | c0 k''].
      - exists "="%char, v'. repeat split; discriminate.
      - exists c0, (k'' ++ "="%char :: v'). split; [reflexivity | ].
        split; [exact Hk' | ]. apply Hc. rewrite Etk.
        apply head_trim; [exact Hk' | ].
        rewrite size_app in Hbk. pose proof (size_nonneg lk). lia. }
    destruct Hhead as (c0 & rest & E0 & Hw & Hn).
    split; [ | exists c0, rest; split; [exact E0 | exact Hn]].
    destruct Hv' as [-> | (a & c & -> & Hcw)].
    + apply (trimmed_intro WHITESPACE k' c0 "="%char);
        [rewrite E0; reflexivity | exact Hw | reflexivity].
    + replace (k' ++ "="%char :: a ++ [c]) with ((k' ++ "="%char :: a) ++ [c])
        by (rewrite <- app_assoc; reflexivity).
      apply (trimmed_intro WHITESPACE (k' ++ "="%char :: a) c0 c);
        [ | exact Hw | exact Hcw].
      replace ((k' ++ "="%char :: a) ++ [c]) with (k' ++ "="%char :: a ++ [c])
        by (rewrite <- app_assoc; reflexivity).
      rewrite E0. reflexivity. }
  destruct Hm as (Htr & c0 & rest & E0 & H1 & H2 & H3).
  rewrite Etk, Etv.
  apply (parseLine_pair st _ rest k' v' c0); try assumption; [ | symmetry; exact E0].
  rewrite <- E0.
  replace (k ++ "="%char :: v) with (lk ++ (k' ++ "="%char :: v') ++ rv)
    by (rewrite Ek, Ev, <- !app_assoc; reflexivity).
  apply trim_middle; try assumption.
  rewrite !size_app, size_cons. rewrite Ek, Ev, !size_app in Hb. lia.
Qed.


Lemma parseLine_outside (st : IniState) (raw : list ascii) :
  currentSection st = [] -> head (trim raw) <> Some "["%char ->
  parseLine st raw = st.
Proof.
  intros Hs Hh. unfold parseLine.
  destruct (trim raw) as [ | c0 rest]; [reflexivity | ]. cbv zeta.
  destruct (Ascii.eqb c0 "#" || Ascii.eqb c0 ";"); [reflexivity | ].
  destruct (Ascii.eqb_spec c0 "["%char) as [-> | _];
    [exfalso; apply Hh; reflexivity | ].
  cbn [andb].
  destruct (find "="%char (c0 :: rest) =? npos); [reflexivity | ].
  rewrite Hs. reflexivity.
Qed.

Lemma fold_outside (lines : list (list ascii)) (st : IniState) :
  currentSection st = [] ->
  (forall line, In line lines -> head (trim line) <> Some "["%char) ->
  fold_left parseLine lines st = st.
Proof.
  intros Hs. induction lines as [ | line lines IH]; intros Hl; simpl.
  - reflexivity.
  - rewrite parseLine_outside by (try assumption; apply Hl; now left).
    apply IH. intros l Hin. apply Hl. now right.
Qed.

(** X25. In both directions the two position conversions undo each
    other: the name written for a position is read back as that
    position, and a name that is read as anything but [TopRight] is the
    name written for what it was read as; every other text is read as
    [TopRight]. *)
Theorem position_round_trip :
  (forall p, stringToPosition (positionToString p) = p)
  /\ (forall s, stringToPosition s = TopRight
                \/ positionToString (stringToPosition s) = s).
Proof.
  split.
  - intros p. destruct p; reflexivity.
  - intros s. unfold stringToPosition.
    repeat (destruct (decide _) as [-> | _]; [right; reflexivity | ]).
    left. reflexivity.
Qed.

(** X26. [trim] removes exactly the whitespace at the two ends: a
    string shorter than [npos] is a run of whitespace, then its trimmed
    text, then a run of whitespace, and the trimmed text neither begins
    nor ends with whitespace. *)
Theorem trim_strips_both_ends (s : list ascii) :
  size s < npos ->
  exists l r, s = l ++ trim s ++ r
    /\ all_in WHITESPACE l /\ all_in WHITESPACE r
    /\ trimmed WHITESPACE (trim s).
Proof.
  intros Hb.
  destruct (split_middle WHITESPACE s) as (l & m & r & E & Hl & Hr & Hm & _).
  exists l, r. rewrite E in Hb. rewrite E at 2 3.
  rewrite trim_middle by assumption.
  repeat split; assumption.
Qed.

Lemma trim_strips_both_ends_witness :
  exists l r, lit "  top_left " = l ++ trim (lit "  top_left ") ++ r
    /\ all_in WHITESPACE l /\ all_in WHITESPACE r
    /\ trimmed WHITESPACE (trim (lit "  top_left ")).
Proof.
  apply (trim_strips_both_ends (lit "  top_left ")). reflexivity.
Defined.

(** X27. Assignments that stand before any section header are
    dropped: reading a file in which no line begins, after trimming,
    with an opening bracket succeeds and leaves the map as it was. *)
Theorem assignments_outside_sections_are_dropped
  (text : list ascii) (data0 : gmap (list ascii) (list ascii)) :
  (forall line, In line (getlines LF text) ->
     head (trim line) <> Some "["%char) ->
  parseIniFile (Some text) data0 = (true, data0).
Proof.
  intros Hl. unfold parseIniFile.
  rewrite fold_outside by (try reflexivity; exact Hl). reflexivity.
Qed.

Lemma assignments_outside_sections_are_dropped_witness :
  parseIniFile (Some (lit "position = top_left" ++ LF :: lit "width=300"))
    (<[lit "Display.theme" := lit "dark"]> ∅)
  = (true, <[lit "Display.theme" := lit "dark"]> ∅).
Proof.
  apply (assignments_outside_sections_are_dropped
           (lit "position = top_left" ++ LF :: lit "width=300")).
  intros line Hin. vm_compute in Hin.
  destruct Hin as [<- | [<- | []]]; vm_compute; discriminate.
Defined.

(** X28. What a file assigns last is what is read: whatever the file
    holds before, if it ends with a header line for the section [S]
    followed by the line [k=v], then the map holds the trimmed [v]
    under the name of [S], a dot and the trimmed [k]. The lines are
    shorter than [npos], [k] has no equals sign, and its trimmed text
    does not begin with a hash, a semicolon or an opening bracket. *)
Theorem last_assignment_is_read
  (pre S k v : list ascii) (data0 : gmap (list ascii) (list ascii)) :
  List.last pre LF = LF ->
  S <> [] -> ~ In LF S -> ~ In LF k -> ~ In LF v ->
  ~ In "="%char k ->
  size S + 2 < npos -> size (k ++ "="%char :: v) < npos ->
  (forall c, head (trim k) = Some c ->
     c <> "#"%char /\ c <> ";"%char /\ c <> "["%char) ->
  snd (parseIniFile
         (Some (pre ++ "["%char :: S ++ "]"%char :: LF :: k ++ "="%char :: v))
         data0)
    !! (S ++ lit "." ++ trim k)
  = Some (trim v).
Proof.
  intros Hpre HS HnS Hnk Hnv Hk HbS Hbkv Hc.
  unfold parseIniFile. cbn [snd].
  rewrite getlines_app by exact Hpre.
  assert (Hlines : getlines LF ("["%char :: S ++ "]"%char :: LF :: k ++ "="%char :: v)
                   = ["["%char :: S ++ ["]"%char]; k ++ "="%char :: v]).
  { unfold getlines.
    replace ("["%char :: S ++ "]"%char :: LF :: k ++ "="%char :: v)
      with (("["%char :: S ++ ["]"%char]) ++ LF :: (k ++ "="%char :: v))
      by (simpl; rewrite <- app_assoc; reflexivity).
    rewrite getline_items_line.
    - rewrite getline_items_end; [reflexivity | | destruct k; discriminate].
      intros Hin. apply in_app_or in Hin.
      destruct Hin as [Hin | [Hin | Hin]]; [tauto | discriminate | tauto].
    - intros [Hin | Hin]; [discriminate | ].
      apply in_app_or in Hin.
      destruct Hin as [Hin | [Hin | []]]; [tauto | discriminate]. }
  rewrite Hlines, fold_left_app. cbn [fold_left].
  rewrite parseLine_header by exact HbS.
  rewrite parseLine_assign by (try assumption; cbn [currentSection]; assumption).
  cbn [currentSection data]. apply lookup_insert_eq.
Qed.

Lemma last_assignment_is_read_witness :
  snd (parseIniFile
         (Some (lit "# saved" ++ [LF]
                ++ "["%char :: lit "Display" ++ "]"%char :: LF
                   :: lit "position " ++ "="%char :: lit " top_left"))
         ∅)
    !! (lit "Display" ++ lit "." ++ trim (lit "position "))
  = Some (trim (lit " top_left")).
Proof.
  apply (last_assignment_is_read (lit "# saved" ++ [LF]) (lit "Display")
           (lit "position ") (lit " top_left") ∅);
    try reflexivity; try discriminate;
    try (vm_compute; intuition discriminate).
  intros c Hc. vm_compute in Hc. injection Hc as <-.
  repeat split; discriminate.
Defined.

End ConfigLaws.

(** ** Facts about GameDetector *)

Module GameDetectorLaws.
Import Stdlib.Strings.Ascii stdpp.strings stdpp.gmap.
Import StdString GameDetector StdStringLaws.
#[local] Open Scope Z_scope.

Lemma trimItem_middle (l m r : list ascii) :
  all_in [SPACE; TAB] l -> all_in [SPACE; TAB] r -> trimmed [SPACE; TAB] m ->
  size (l ++ m ++ r) < npos ->
  trimItem (l ++ m ++ r) = m.
Proof.
  intros Hl Hr Hm Hb. unfold trimItem.
  rewrite first_not_of_middle by assumption.
  rewrite !size_app in Hb.
  pose proof (size_nonneg l) as Pl. pose proof (size_nonneg m) as Pm.
  pose proof (size_nonneg r) as Pr.
  destruct m as [ | c0 m'].
  - rewrite erase_all by (rewrite !size_app; exact Hb). reflexivity.
  - rewrite erase_front.
    change ((c0 :: m') ++ r) with ([] ++ (c0 :: m') ++ r).
    rewrite last_not_of_middle; try assumption;
      [ | constructor
        | change ([] ++ (c0 :: m') ++ r) with ((c0 :: m') ++ r);
          rewrite size_app; lia].
    change (size []) with 0. unfold npos in Hb.
    replace (0 + size (c0 :: m') - 1 + 1) with (size (c0 :: m')) by lia.
    rewrite size_t_small by (unfold is_size_t, SIZE_WIDTH; lia).
    change ([] ++ (c0 :: m') ++ r) with ((c0 :: m') ++ r).
    apply erase_tail. unfold npos. lia.
Qed.

(** X29. Every item of a parsed list is clean: it has characters, no
    comma among them, and neither begins nor ends with a space or a
    tab. The text is shorter than [npos]. *)
Theorem parseList_items_are_clean (text item : list ascii) :
  size text < npos ->
  In item (parseList text) ->
  item <> [] /\ ~ In ","%char item /\ trimmed [SPACE; TAB] item.
Proof.
  intros Hb Hin. unfold parseList in Hin.
  apply List.filter_In in Hin. destruct Hin as [Hin Hne].
  apply in_map_iff in Hin. destruct Hin as (x & <- & Hx).
  destruct (getline_items_pieces _ _ _ _ Hx) as [Hc Hsz]; [intros [] | ].
  change (size []) with 0 in Hsz.
  destruct (split_middle [SPACE; TAB] x) as (l & m & r & E & Hl & Hr & Hm & _).
  rewrite E in Hsz, Hne |- *.
  rewrite trimItem_middle in Hne |- * by (try assumption; lia).
  split; [ | split; [ | exact Hm]].
  - intros ->. discriminate Hne.
  - intros Hin. apply Hc. rewrite E.
    apply in_or_app. right. apply in_or_app. now left.
Qed.

Lemma parseList_items_are_clean_witness :
  lit "game.exe" <> [] /\ ~ In ","%char (lit "game.exe")
  /\ trimmed [SPACE; TAB] (lit "game.exe").
Proof.
  apply (parseList_items_are_clean (lit " demo.exe ,, game.exe ,") (lit "game.exe"));
    [reflexivity | ].
  vm_compute. right. left. reflexivity.
Defined.

Lemma Eligible_dec (d : t) (w : Window) :
  (Eligible d w
   /\ enumWindowsCallback w d
      = (false, {| m_gameWindow := hwnd w; m_autoDetect := m_autoDetect d;
                   m_whitelist := m_whitelist d;
                   m_blacklist := m_blacklist d |}))
  \/ (~ Eligible d w /\ enumWindowsCallback w d = (true, d)).
Proof.
  unfold Eligible, enumWindowsCallback, isBlacklisted, isWhitelisted, contains.
  destruct (isFullscreen w); cbn [negb]; [ | right; intuition discriminate].
  destruct (processName w) as [ | c n] eqn:En; [right; intuition congruence | ].
  destruct (bool_decide_reflect (c :: n ∈ m_blacklist d)) as [Hb | Hb];
    [right; intuition | ].
  destruct (m_whitelist d) as [ | x wl] eqn:Ew.
  - left. cbn [negb]. intuition congruence.
  - destruct (bool_decide_reflect (c :: n ∈ x :: wl)) as [Hw | Hw]; cbn [negb].
    + left. intuition congruence.
    + right. intuition congruence.
Qed.

Lemma isFullscreen_handle (w : Window) : isFullscreen w = true -> hwnd w <> 0.
Proof.
  unfold isFullscreen. destruct (Z.eqb_spec (hwnd w) 0); [discriminate | auto].
Qed.

Lemma EnumWindows_first (windows : list Window) (d : t) :
  (Forall (fun w => ~ Eligible d w) windows /\ EnumWindows windows d = d)
  \/ (exists pre w post, windows = pre ++ w :: post
        /\ Forall (fun w => ~ Eligible d w) pre /\ Eligible d w
        /\ EnumWindows windows d
           = {| m_gameWindow := hwnd w; m_autoDetect := m_autoDetect d;
                m_whitelist := m_whitelist d;
                m_blacklist := m_blacklist d |}).
Proof.
  induction windows as [ | w windows IH]; simpl.
  - left. split; [constructor | reflexivity].
  - destruct (Eligible_dec d w) as [[He Ec] | [He Ec]]; rewrite Ec.
    + right. exists [], w, windows.
      split; [reflexivity | split; [constructor | split; [exact He | reflexivity]]].
    + destruct IH as [[Hall E] | (pre & w' & post & E & Hpre & He' & E')].
      * left. split; [constructor; assumption | exact E].
      * right. exists (w :: pre), w', post. rewrite E at 1.
        split; [reflexivity | ].
        split; [constructor; assumption | split; [exact He' | exact E']].
Qed.

(** X30. With automatic detection on, [detectGame] returns the handle
    of the first listed window that is fullscreen, has a process name,
    is not on the blacklist and is on the whitelist unless that is
    empty; the handle is not null. It returns null exactly when no
    listed window is such a window. *)
Theorem detectGame_returns_first_eligible (windows : list Window) (d : t) :
  m_autoDetect d = true ->
  (Forall (fun w => ~ Eligible d w) windows
   /\ fst (detectGame windows d) = 0)
  \/ (exists pre w post, windows = pre ++ w :: post
        /\ Forall (fun w => ~ Eligible d w) pre /\ Eligible d w
        /\ fst (detectGame windows d) = hwnd w /\ hwnd w <> 0).
Proof.
  intros Ha. unfold detectGame. rewrite Ha. cbn [negb]. cbv zeta.
  set (d1 := {| m_gameWindow := 0; m_autoDetect := true;
                m_whitelist := m_whitelist d; m_blacklist := m_blacklist d |}).
  change (fun w => ~ Eligible d w) with (fun w => ~ Eligible d1 w).
  change (Eligible d) with (Eligible d1).
  destruct (EnumWindows_first windows d1)
    as [[Hall E] | (pre & w & post & E & Hpre & He & E')].
  - left. rewrite E. split; [exact Hall | reflexivity].
  - right. exists pre, w, post. rewrite E'.
    split; [exact E | split; [exact Hpre | split; [exact He | ]]].
    split; [reflexivity | ]. apply isFullscreen_handle. apply He.
Qed.

Lemma detectGame_returns_first_eligible_witness :
  (Forall (fun w => ~ Eligible (setBlacklist (lit "explorer.exe") create) w)
     [mkWindow 101 true (mkRECT 0 0 1920 1080) (mkRECT 0 0 1920 1080)
        (lit "explorer.exe");
      mkWindow 102 true (mkRECT 100 100 900 700) (mkRECT 0 0 1920 1080)
        (lit "notepad.exe");
      mkWindow 103 true (mkRECT 0 0 1920 1080) (mkRECT 0 0 1920 1080)
        (lit "game.exe")]
   /\ fst (detectGame
             [mkWindow 101 true (mkRECT 0 0 1920 1080) (mkRECT 0 0 1920 1080)
                (lit "explorer.exe");
              mkWindow 102 true (mkRECT 100 100 900 700)
                (mkRECT 0 0 1920 1080) (lit "notepad.exe");
              mkWindow 103 true (mkRECT 0 0 1920 1080) (mkRECT 0 0 1920 1080)
                (lit "game.exe")]
             (setBlacklist (lit "explorer.exe") create)) = 0)
  \/ (exists pre w post,
        [mkWindow 101 true (mkRECT 0 0 1920 1080) (mkRECT 0 0 1920 1080)
           (lit "explorer.exe");
         mkWindow 102 true (mkRECT 100 100 900 700) (mkRECT 0 0 1920 1080)
           (lit "notepad.exe");
         mkWindow 103 true (mkRECT 0 0 1920 1080) (mkRECT 0 0 1920 1080)
           (lit "game.exe")] = pre ++ w :: post
        /\ Forall
             (fun w => ~ Eligible (setBlacklist (lit "explorer.exe") create) w)
             pre
        /\ Eligible (setBlacklist (lit "explorer.exe") create) w
        /\ fst (detectGame
                  [mkWindow 101 true (mkRECT 0 0 1920 1080)
                     (mkRECT 0 0 1920 1080) (lit "explorer.exe");
                   mkWindow 102 true (mkRECT 100 100 900 700)
                     (mkRECT 0 0 1920 1080) (lit "notepad.exe");
                   mkWindow 103 true (mkRECT 0 0 1920 1080)
                     (mkRECT 0 0 1920 1080) (lit "game.exe")]
                  (setBlacklist (lit "explorer.exe") create)) = hwnd w
        /\ hwnd w <> 0).
Proof.
  apply (detectGame_returns_first_eligible
           [mkWindow 101 true (mkRECT 0 0 1920 1080) (mkRECT 0 0 1920 1080)
              (lit "explorer.exe");
            mkWindow 102 true (mkRECT 100 100 900 700) (mkRECT 0 0 1920 1080)
              (lit "notepad.exe");
            mkWindow 103 true (mkRECT 0 0 1920 1080) (mkRECT 0 0 1920 1080)
              (lit "game.exe")]
           (setBlacklist (lit "explorer.exe") create)).
  reflexivity.
Defined.

End GameDetectorLaws.

(** ** Facts about binary64 doubles *)

Module Binary64Facts.
Import Stdlib.Floats.SpecFloat Binary64.
#[local] Open Scope Z_scope.

Lemma iter_xO_digits (p k : positive) :
  Zpos (digits2_pos (Pos.iter xO p k)) = Zpos (digits2_pos p) + Zpos k.
Proof.
  induction k as [ | k IH] using Pos.peano_ind.
  - simpl. lia.
  - rewrite Pos.iter_succ. simpl digits2_pos. lia.
Qed.

Lemma iter_xO_value (p k : positive) :
  Zpos (Pos.iter xO p k) = Zpos p * 2 ^ Zpos k.
Proof.
  induction k as [ | k IH] using Pos.peano_ind.
  - simpl. lia.
  - rewrite Pos.iter_succ, Pos2Z.inj_xO, IH, Pos2Z.inj_succ, Z.pow_succ_r by lia.
    lia.
Qed.

Lemma digits2_pos_bounds (p : positive) :
  2 ^ (Zpos (digits2_pos p) - 1) <= Zpos p < 2 ^ Zpos (digits2_pos p).
Proof.
  induction p as [p IH | p IH | ]; simpl digits2_pos.
  - rewrite Pos2Z.inj_succ.
    replace (Z.succ (Zpos (digits2_pos p)) - 1)
      with (Z.succ (Zpos (digits2_pos p) - 1)) by lia.
    rewrite !Z.pow_succ_r by lia. lia.
  - rewrite Pos2Z.inj_succ.
    replace (Z.succ (Zpos (digits2_pos p)) - 1)
      with (Z.succ (Zpos (digits2_pos p) - 1)) by lia.
    rewrite !Z.pow_succ_r by lia. lia.
  - simpl. lia.
Qed.

Lemma digits2_pos_small (p : positive) (n : Z) :
  0 <= n -> Zpos p < 2 ^ n -> Zpos (digits2_pos p) <= n.
Proof.
  intros Hn Hp. destruct (digits2_pos_bounds p) as [Hlo _].
  destruct (Z_le_gt_dec (Zpos (digits2_pos p)) n) as [H | H]; [exact H | ].
  exfalso.
  assert (2 ^ n <= 2 ^ (Zpos (digits2_pos p) - 1))
    by (apply Z.pow_le_mono_r; lia).
  lia.
Qed.

(** A canonical mantissa and exponent are left as they are. *)
Lemma round_canonical (s : bool) (m : positive) (e : Z) :
  canonical_mantissa prec emax m e = true -> e <= emax - prec ->
  binary_round_aux prec emax s (Zpos m) e loc_Exact = S754_finite s m e.
Proof.
  intros Hc He. unfold canonical_mantissa in Hc. apply Z.eqb_eq in Hc.
  unfold binary_round_aux, shr_fexp. simpl Zdigits2.
  rewrite Hc, Z.sub_diag.
  cbn [shr shr_record_of_loc shr_m round_nearest_even loc_of_shr_record
       Zdigits2].
  rewrite Hc, Z.sub_diag.
  cbn [shr shr_record_of_loc shr_m].
  apply Z.leb_le in He. rewrite He. reflexivity.
Qed.

Lemma fexp_small (d : Z) : 1 <= d <= 53 -> fexp prec emax d = d - 53.
Proof. intros H. unfold fexp, emin, prec, emax. lia. Qed.

(** The double nearest to an integer below 2^53 is that integer. *)
Lemma normalize_small (s : bool) (p : positive) :
  Zpos p < 2 ^ 53 ->
  exists (m : positive) (e : Z),
    binary_round prec emax s p 0 = S754_finite s m e
    /\ e <= 0 /\ Zpos m = Zpos p * 2 ^ (- e).
Proof.
  intros Hp.
  pose proof (digits2_pos_small p 53 ltac:(lia) Hp) as Hd.
  assert (H1 : 1 <= Zpos (digits2_pos p)) by lia.
  unfold binary_round. rewrite Z.add_0_r, fexp_small by lia.
  unfold shl_align. rewrite Z.sub_0_r.
  destruct (Zpos (digits2_pos p) - 53) as [ | q | q] eqn:E; [ | lia | ].
  - exists p, 0. split; [ | split; [lia | simpl; lia]].
    apply round_canonical; [ | unfold emax, prec; lia].
    unfold canonical_mantissa. apply Z.eqb_eq.
    rewrite Z.add_0_r, fexp_small by lia. lia.
  - exists (Pos.iter xO p q), (Zneg q). split; [ | split; [lia | ]].
    + apply round_canonical; [ | unfold emax, prec; lia].
      unfold canonical_mantissa. apply Z.eqb_eq.
      rewrite iter_xO_digits.
      replace (Zpos (digits2_pos p) + Zpos q + Zneg q)
        with (Zpos (digits2_pos p)) by lia.
      rewrite fexp_small by lia. exact E.
    + rewrite iter_xO_value. reflexivity.
Qed.

Lemma truncZ_normalize (s : bool) (z : Z) :
  - 2 ^ 53 < z < 2 ^ 53 -> truncZ (binary_normalize prec emax z 0 s) = z.
Proof.
  intros Hz. destruct z as [ | p | p]; [reflexivity | | ]; simpl binary_normalize.
  - destruct (normalize_small false p ltac:(lia)) as (m & e & -> & He & Hm).
    unfold truncZ, cond_Zopp.
    destruct (Z.leb_spec 0 e).
    + replace e with 0 in * by lia. simpl in Hm. lia.
    + rewrite Hm, Z.div_mul; [reflexivity | ].
      apply Z.pow_nonzero; lia.
  - destruct (normalize_small true p ltac:(lia)) as (m & e & -> & He & Hm).
    unfold truncZ, cond_Zopp.
    destruct (Z.leb_spec 0 e).
    + replace e with 0 in * by lia. simpl in Hm. lia.
    + rewrite Hm, Z.div_mul; [reflexivity | ].
      apply Z.pow_nonzero; lia.
Qed.

(** The floor and the ceiling of a number that is not negative. *)
Lemma floorZ_ceilZ (x : double) :
  nonneg_finite x = true -> 0 <= floorZ x <= ceilZ x.
Proof.
  destruct x as [s | s | | [ | ] m e]; try discriminate; intros _.
  - unfold ceilZ. simpl. lia.
  - unfold ceilZ, floorZ, SFopp, cond_Zopp. simpl negb. cbv iota.
    destruct (Z.leb_spec 0 e) as [He | He].
    + assert (0 < 2 ^ e) by (apply Z.pow_pos_nonneg; lia). nia.
    + assert (Hp : 0 < 2 ^ (- e)) by (apply Z.pow_pos_nonneg; lia).
      pose proof (Z.div_pos (Zpos m) (2 ^ (- e)) ltac:(lia) Hp) as H0.
      split; [exact H0 | ].
      pose proof (Z_div_mod_eq_full (Zpos m) (2 ^ (- e))) as E1.
      pose proof (Z.mod_pos_bound (Zpos m) (2 ^ (- e)) Hp) as B1.
      pose proof (Z_div_mod_eq_full (- Zpos m) (2 ^ (- e))) as E2.
      pose proof (Z.mod_pos_bound (- Zpos m) (2 ^ (- e)) Hp) as B2.
      nia.
Qed.

(** The index that [static_cast<size_t>(std::floor(x))] and
    [static_cast<size_t>(std::ceil(x))] give. *)
Lemma size_t_of_floor (x : double) :
  nonneg_finite x = true -> ceilZ x < 2 ^ 53 ->
  size_t_of_double (std_floor x) = floorZ x
  /\ size_t_of_double (std_ceil x) = ceilZ x.
Proof.
  intros Hx Hc. pose proof (floorZ_ceilZ x Hx) as [H0 H1].
  unfold size_t_of_double.
  destruct x as [s | s | | s m e]; try discriminate.
  - split; reflexivity.
  - unfold std_floor, std_ceil.
    rewrite !truncZ_normalize by lia.
    split; apply size_t_small; unfold is_size_t, SIZE_WIDTH; lia.
Qed.

Lemma one_value : one = S754_finite false 4503599627370496 (-52).
Proof. reflexivity. Qed.

Lemma div_eucl_mul (a b : Z) : 0 < b -> Z.div_eucl (a * b) b = (a, 0).
Proof.
  intros Hb. pose proof (Z_div_mod (a * b) b ltac:(lia)) as H.
  destruct (Z.div_eucl (a * b) b) as [q r]. destruct H as [H1 H2].
  assert (r = 0 /\ q = a) as [-> ->]; [ | reflexivity].
  assert (Hr : r = (a - q) * b) by lia.
  assert (a - q = 0); [ | split; subst; lia].
  destruct (Z_lt_le_dec (a - q) 1) as [Hlt | Hge].
  - destruct (Z_lt_le_dec (a - q) 0) as [Hneg | Hnn]; [ | lia].
    exfalso.
    assert ((a - q) * b <= -1 * b) by (apply Z.mul_le_mono_nonneg_r; lia).
    lia.
  - exfalso.
    assert (1 * b <= (a - q) * b) by (apply Z.mul_le_mono_nonneg_r; lia).
    lia.
Qed.

(** Rounding twice a canonical mantissa of full width, one exponent
    below, gives the mantissa back. *)
Lemma round_doubled (s : bool) (m : positive) (e : Z) :
  canonical_mantissa prec emax m e = true -> e <= emax - prec ->
  Zpos (digits2_pos m) = 53 ->
  binary_round_aux prec emax s (Zpos m~0) (e - 1) loc_Exact
  = S754_finite s m e.
Proof.
  intros Hc He Hd. unfold canonical_mantissa in Hc. apply Z.eqb_eq in Hc.
  unfold binary_round_aux, shr_fexp.
  assert (E1 : fexp prec emax (Zdigits2 (Zpos m~0) + (e - 1)) - (e - 1) = 1).
  { simpl Zdigits2. rewrite Pos2Z.inj_succ.
    replace (Z.succ (Zpos (digits2_pos m)) + (e - 1))
      with (Zpos (digits2_pos m) + e) by lia.
    rewrite Hc. lia. }
  rewrite E1.
  cbn [shr iter_pos shr_1 shr_record_of_loc shr_m round_nearest_even
       loc_of_shr_record orb].
  replace (e - 1 + 1) with e by lia.
  simpl Zdigits2. rewrite Hc, Z.sub_diag.
  cbn [shr shr_record_of_loc shr_m].
  apply Z.leb_le in He. rewrite He. reflexivity.
Qed.

(** Dividing by 1.0 changes nothing. *)
Lemma fdiv_one (x : double) : valid x = true -> fdiv x one = x.
Proof.
  intros Hv. rewrite one_value.
  destruct x as [s | s | | s m e];
    [destruct s; reflexivity | destruct s; reflexivity | reflexivity | ].
  unfold valid, valid_binary, bounded in Hv.
  apply andb_true_iff in Hv. destruct Hv as [Hc He].
  apply Z.leb_le in He.
  pose proof Hc as Hc'. unfold canonical_mantissa in Hc'.
  apply Z.eqb_eq in Hc'. unfold fexp, emin in Hc'.
  assert (Hd1 : 1 <= Zpos (digits2_pos m)) by lia.
  unfold fdiv, SFdiv, SFdiv_core_binary.
  change (Zdigits2 (Zpos 4503599627370496)) with 53.
  simpl Zdigits2.
  replace (xorb s false) with s by (destruct s; reflexivity).
  destruct (Z.eq_dec (Zpos (digits2_pos m)) 53) as [Hd | Hd].
  - destruct (Z.eq_dec e (3 - emax - prec)) as [Hmin | Hmin].
    + assert (E : Z.min (fexp prec emax (Zpos (digits2_pos m) + e - (53 + -52)))
                    (e - -52) = e)
        by (unfold fexp, emin, prec, emax in *; lia).
      rewrite E. replace (e - -52 - e) with 52 by lia.
      rewrite Z.shiftl_mul_pow2 by lia.
      change (2 ^ 52) with 4503599627370496.
      rewrite div_eucl_mul by lia.
      change (new_location 4503599627370496 0) with loc_Exact.
      apply round_canonical; assumption.
    + assert (E : Z.min (fexp prec emax (Zpos (digits2_pos m) + e - (53 + -52)))
                    (e - -52) = e - 1)
        by (unfold fexp, emin, prec, emax in *; lia).
      rewrite E. replace (e - -52 - (e - 1)) with 53 by lia.
      rewrite Z.shiftl_mul_pow2 by lia.
      change (2 ^ 53) with (2 * 4503599627370496).
      rewrite Z.mul_assoc, div_eucl_mul by lia.
      change (new_location 4503599627370496 0) with loc_Exact.
      replace (Zpos m * 2) with (Zpos m~0) by lia.
      apply round_doubled; assumption.
  - assert (E : Z.min (fexp prec emax (Zpos (digits2_pos m) + e - (53 + -52)))
                  (e - -52) = e)
      by (unfold fexp, emin, prec, emax in *; lia).
    rewrite E. replace (e - -52 - e) with 52 by lia.
    rewrite Z.shiftl_mul_pow2 by lia.
    change (2 ^ 52) with 4503599627370496.
    rewrite div_eucl_mul by lia.
    change (new_location 4503599627370496 0) with loc_Exact.
    apply round_canonical; assumption.
Qed.

(** Adding to 0.0 changes nothing but the sign of a negative zero. *)
Lemma fadd_zero (x : double) :
  fadd zero x = x \/ (x = S754_zero true /\ fadd zero x = zero).
Proof.
  destruct x as [[ | ] | s | | s m e]; try (left; reflexivity).
  right. split; reflexivity.
Qed.

Lemma feq_refl (x : double) : is_nan x = false -> feq x x = true.
Proof.
  intros Hn. destruct x as [s | s | | s m e]; try discriminate.
  - reflexivity.
  - destruct s; reflexivity.
  - unfold feq, SFeqb, SFcompare.
    rewrite Z.compare_refl, Pos.compare_cont_refl. destruct s; reflexivity.
Qed.

Lemma flt_fle (x y : double) : flt x y = true -> fle x y = true.
Proof.
  unfold flt, fle, SFltb, SFleb.
  destruct (SFcompare x y) as [[ | | ] | ]; try discriminate; reflexivity.
Qed.

(** On numbers the order is total. *)
Lemma flt_false_fle (x y : double) :
  is_nan x = false -> is_nan y = false -> flt y x = false -> fle x y = true.
Proof.
  unfold flt, fle, SFltb, SFleb.
  destruct x as [sx | sx | | sx mx ex]; try discriminate;
    destruct y as [sy | sy | | sy my ey]; try discriminate;
    intros _ _; simpl;
    try (destruct sx; destruct sy; simpl; congruence);
    try (destruct sx; simpl; congruence);
    try (destruct sy; simpl; congruence).
  pose proof (Z.compare_antisym ex ey) as Ae.
  pose proof (Pos.compare_cont_antisym mx my Eq) as Am. simpl in Am.
  destruct sx, sy; simpl; try congruence;
    rewrite Ae; destruct (ex ?= ey); simpl; try congruence;
    rewrite <- Am; destruct (Pos.compare_cont Eq mx my); simpl; congruence.
Qed.

Lemma flt_numbers (x y : double) :
  flt x y = true -> is_nan x = false /\ is_nan y = false.
Proof.
  unfold flt, SFltb.
  destruct x as [sx | sx | | sx mx ex]; destruct y as [sy | sy | | sy my ey];
    simpl; intros H; try discriminate; split; reflexivity.
Qed.

Lemma fle_flt_false (x y : double) : fle x y = true -> flt y x = false.
Proof.
  unfold flt, fle, SFltb, SFleb.
  destruct x as [sx | sx | | sx mx ex]; destruct y as [sy | sy | | sy my ey];
    simpl; try congruence;
    try (destruct sx; destruct sy; simpl; congruence);
    try (destruct sx; simpl; congruence);
    try (destruct sy; simpl; congruence).
  pose proof (Z.compare_antisym ex ey) as Ae.
  pose proof (Pos.compare_cont_antisym mx my Eq) as Am. simpl in Am.
  destruct sx, sy; simpl; try congruence;
    rewrite Ae; destruct (ex ?= ey); simpl; try congruence;
    rewrite <- Am; destruct (Pos.compare_cont Eq mx my); simpl; congruence.
Qed.

(** Neither below nor above: equal. *)
Lemma fle_not_flt_feq (x y : double) :
  fle x y = true -> flt x y = false -> feq x y = true.
Proof.
  unfold flt, fle, feq, SFltb, SFleb, SFeqb.
  destruct (SFcompare x y) as [[ | | ] | ]; congruence.
Qed.

(** Clamping the way the source writes it, [std::max(lo, std::min(x,
    hi))], gives a number between the bounds, whatever [x] is. *)
Lemma clamp_numbers (lo hi x : double) :
  is_nan lo = false -> is_nan hi = false -> fle lo hi = true ->
  fle lo lo = true -> fle hi hi = true ->
  is_nan (std_max lo (std_min x hi)) = false
  /\ fle lo (std_max lo (std_min x hi)) = true
  /\ fle (std_max lo (std_min x hi)) hi = true.
Proof.
  intros Hlo Hhi Hlh Hll Hhh. unfold std_max, std_min.
  destruct (flt hi x) eqn:E1.
  - destruct (flt lo hi) eqn:E2; repeat split; assumption.
  - destruct (flt lo x) eqn:E2.
    + destruct (flt_numbers _ _ E2) as [_ Hx].
      split; [exact Hx | ]. split; [apply flt_fle; exact E2 | ].
      apply flt_false_fle; assumption.
    + repeat split; assumption.
Qed.

(** Inside the bounds the clamp changes nothing. *)
Lemma clamp_keeps (lo hi x : double) :
  fle lo x = true -> fle x hi = true ->
  feq (std_max lo (std_min x hi)) x = true.
Proof.
  intros Hl Hh. unfold std_max, std_min.
  rewrite (fle_flt_false _ _ Hh).
  destruct (flt lo x) eqn:E.
  - destruct (flt_numbers _ _ E) as [_ Hx]. apply feq_refl. exact Hx.
  - apply fle_not_flt_feq; assumption.
Qed.

End Binary64Facts.

(** ** Facts about FpsCalculator on binary64 doubles *)

Module FpsCalculator64Facts.
Import Stdlib.Floats.SpecFloat.
Import Binary64 Binary64Facts FpsCalculator64.
#[local] Open Scope Z_scope.

Lemma capacity_pos : 0 < MAX_HISTORY.
Proof. reflexivity. Qed.

Lemma capacity_max : MAX_HISTORY < 2 ^ 63.
Proof. reflexivity. Qed.

Lemma Inv64_create (historySize : Z) : Inv (create historySize) [].
Proof. apply RingBufferFacts.Rep_create. exact capacity_pos. Qed.

Lemma Inv64_reset (c : t) (l : list double) : Inv c l -> Inv (reset c) [].
Proof. apply RingBufferFacts.Rep_clear. exact capacity_pos. Qed.

Lemma getSamples64_Inv (c : t) (l : list double) : Inv c l -> getSamples c = l.
Proof.
  apply RingBufferFacts.getAll_Rep; [exact capacity_pos | exact capacity_max].
Qed.

Lemma calculateAverage64_Inv (c : t) (l : list double) :
  Inv c l -> calculateAverage c = mean l.
Proof.
  intros H. unfold calculateAverage.
  change (RingBuffer.getAll zero MAX_HISTORY (m_samples c)) with (getSamples c).
  rewrite (getSamples64_Inv c l H). reflexivity.
Qed.

(** An update stopped by the guard changes nothing. *)
Lemma update64_stopped (deltaTime : double) (c : t) :
  fle deltaTime zero = true -> update deltaTime c = c.
Proof. intros H. unfold update. rewrite H. reflexivity. Qed.

(** An update that passes the guard stores the clamped rate and
    recomputes the mean. *)
Lemma update64_passed (deltaTime : double) (c : t) (l : list double) :
  Inv c l -> fle deltaTime zero = false ->
  Inv (update deltaTime c)
      (RingBuffer.keep_last MAX_HISTORY (l ++ [rate_of deltaTime])) /\
  getCurrentFPS (update deltaTime c) = rate_of deltaTime /\
  getAverageFPS (update deltaTime c)
    = mean (RingBuffer.keep_last MAX_HISTORY (l ++ [rate_of deltaTime])).
Proof.
  intros HI Hd.
  assert (HI' : Inv (update deltaTime c)
                  (RingBuffer.keep_last MAX_HISTORY (l ++ [rate_of deltaTime]))).
  { unfold update. rewrite Hd. unfold Inv. simpl.
    apply RingBufferFacts.Rep_push;
      [exact capacity_pos | exact capacity_max | exact HI]. }
  split; [exact HI' | ]. split.
  - unfold update. rewrite Hd. reflexivity.
  - rewrite <- (calculateAverage64_Inv _ _ HI').
    unfold update. rewrite Hd. reflexivity.
Qed.

Lemma Inv64_step (k : call) (c : t) (l : list double) :
  Inv c l -> Inv (step c k) (window_step l k).
Proof.
  intros HI. destruct k as [deltaTime | ]; simpl.
  - destruct (fle deltaTime zero) eqn:E.
    + rewrite update64_stopped by exact E. exact HI.
    + apply update64_passed; assumption.
  - apply (Inv64_reset c l HI).
Qed.

Lemma Inv64_fold (calls : list call) (c : t) (l : list double) :
  Inv c l -> Inv (fold_left step calls c) (fold_left window_step calls l).
Proof.
  revert c l. induction calls as [ | k calls IH]; intros c l HI; simpl.
  - exact HI.
  - apply IH. apply Inv64_step. exact HI.
Qed.

(** Every calculator a program can build holds the window of its calls. *)
Lemma Inv64_run (historySize : Z) (calls : list call) :
  Inv (run historySize calls) (window calls).
Proof. apply Inv64_fold. apply Inv64_create. Qed.

Lemma getSamples64_run (historySize : Z) (calls : list call) :
  getSamples (run historySize calls) = window calls.
Proof. apply getSamples64_Inv, Inv64_run. Qed.

Lemma run64_snoc (historySize : Z) (calls : list call) (k : call) :
  run historySize (calls ++ [k]) = step (run historySize calls) k.
Proof. unfold run. rewrite fold_left_app. reflexivity. Qed.

Lemma window64_app (calls1 calls2 : list call) :
  window (calls1 ++ calls2) = fold_left window_step calls2 (window calls1).
Proof. unfold window. apply fold_left_app. Qed.

(** The two cached doubles agree with the window in every state. *)
Lemma cached64 (historySize : Z) (calls : list call) :
  getAverageFPS (run historySize calls) = mean (window calls) /\
  getCurrentFPS (run historySize calls) = default zero (last (window calls)).
Proof.
  induction calls as [ | k calls IH] using rev_ind.
  - split; reflexivity.
  - rewrite run64_snoc, window64_app.
    pose proof (Inv64_run historySize calls) as HI.
    destruct k as [d | ]; simpl.
    + destruct (fle d zero) eqn:E.
      * rewrite update64_stopped by exact E. exact IH.
      * destruct (update64_passed d _ _ HI E) as (_ & Hc & Ha).
        split; [exact Ha | ].
        rewrite Hc, (RingBufferFacts.last_keep_last_snoc MAX_HISTORY capacity_pos).
        reflexivity.
    + split; reflexivity.
Qed.






(** X5. In every state reached by updates and resets, the cached
    rolling mean is the double-precision mean of the current snapshot:
    the samples added to 0.0 from the oldest to the newest, each sum
    rounded, divided by their number (0.0 for an empty snapshot); and the
    cached current rate is the newest sample of the snapshot (0.0 for an
    empty one), which is also what the buffer's [latest()] returns. *)
Theorem cached_values_match_buffer (historySize : Z) (calls : list call) :
  getAverageFPS (run historySize calls)
    = mean (getSamples (run historySize calls)) /\
  getCurrentFPS (run historySize calls)
    = default zero (last (getSamples (run historySize calls))) /\
  (getSamples (run historySize calls) <> [] ->
   RingBuffer.latest zero MAX_HISTORY (m_samples (run historySize calls))
     = Ok (getCurrentFPS (run historySize calls))).
Proof.
  rewrite getSamples64_run.
  destruct (cached64 historySize calls) as [Ha Hc].
  split; [exact Ha | ]. split; [exact Hc | ].
  intros Hne. rewrite Hc.
  rewrite (RingBufferFacts.latest_Rep zero MAX_HISTORY capacity_pos
             capacity_max _ _ (Inv64_run historySize calls)).
  destruct (last (window calls)) as [v | ] eqn:El; [reflexivity | ].
  apply last_None in El. contradiction.
Qed.

Lemma rate_of_number (deltaTime : double) :
  is_nan (rate_of deltaTime) = false
  /\ fle zero (rate_of deltaTime) = true
  /\ fle (rate_of deltaTime) (of_Z 1000) = true.
Proof. apply clamp_numbers; reflexivity. Qed.

Lemma window64_numbers (calls : list call) :
  Forall (fun x => is_nan x = false /\ fle zero x = true
                   /\ fle x (of_Z 1000) = true)
    (window calls).
Proof.
  induction calls as [ | k calls IH] using rev_ind.
  - constructor.
  - rewrite window64_app. destruct k as [d | ]; simpl.
    + destruct (fle d zero); [exact IH | ].
      unfold RingBuffer.keep_last. apply Forall_drop.
      apply Forall_app. split; [exact IH | ].
      constructor; [apply rate_of_number | constructor].
    + constructor.
Qed.

(** X31. Whatever doubles the updates are given, a NaN or an infinity
    included, every buffered sample and the current rate are numbers
    between 0.0 and [MAX_FPS = 1000.0]: a NaN or a positive infinity
    passes the guard and stores 0.0, a negative infinity is stopped by
    the guard, and no NaN is ever stored. *)
Theorem stored_rates_are_numbers (historySize : Z) (calls : list call) :
  Forall (fun x => is_nan x = false /\ fle zero x = true
                   /\ fle x (of_Z 1000) = true)
    (getSamples (run historySize calls)) /\
  (is_nan (getCurrentFPS (run historySize calls)) = false
   /\ fle zero (getCurrentFPS (run historySize calls)) = true
   /\ fle (getCurrentFPS (run historySize calls)) (of_Z 1000) = true) /\
  (forall c : t,
     getCurrentFPS (update S754_nan c) = zero
     /\ getCurrentFPS (update (S754_infinity false) c) = zero
     /\ update (S754_infinity true) c = c).
Proof.
  rewrite getSamples64_run.
  pose proof (window64_numbers calls) as Hw.
  destruct (cached64 historySize calls) as [_ Hc].
  split; [exact Hw | ]. split.
  - rewrite Hc. destruct (last (window calls)) as [v | ] eqn:El; simpl.
    + apply last_Some_elem_of in El.
      rewrite Forall_forall in Hw. apply Hw. exact El.
    + repeat split; reflexivity.
  - intros c. repeat split; reflexivity.
Qed.

End FpsCalculator64Facts.

(** ** Facts about StatsTracker on binary64 doubles *)

Module StatsTracker64Facts.
Import Binary64 Binary64Facts StatsTracker64.
#[local] Open Scope Z_scope.

Lemma sort64_insert_perm (x : double) (l : list double) :
  Permutation (sort_insert x l) (x :: l).
Proof.
  induction l as [ | y l IH]; simpl.
  - reflexivity.
  - destruct (flt y x).
    + rewrite IH. apply perm_swap.
    + reflexivity.
Qed.

Lemma std_sort64_perm (l : list double) : Permutation (std_sort l) l.
Proof.
  induction l as [ | x l IH]; simpl.
  - reflexivity.
  - rewrite sort64_insert_perm, IH. reflexivity.
Qed.

Lemma std_sort64_length (l : list double) : length (std_sort l) = length l.
Proof. apply Permutation_length, std_sort64_perm. Qed.

Lemma sort64_insert_sorted (x : double) (l : list double) :
  is_nan x = false -> Forall (fun y => is_nan y = false) l ->
  Sorted (fun a b => fle a b = true) l ->
  Sorted (fun a b => fle a b = true) (sort_insert x l).
Proof.
  intros Hx Hl. induction Hl as [ | y l Hy Hl IH]; intros Hs; simpl.
  - repeat constructor.
  - destruct (flt y x) eqn:E.
    + apply Sorted_inv in Hs. destruct Hs as [Hs Hhd].
      constructor; [apply IH, Hs | ].
      destruct l as [ | z l]; simpl.
      * constructor. apply flt_fle, E.
      * apply HdRel_inv in Hhd.
        destruct (flt z x); constructor; [exact Hhd | apply flt_fle, E].
    + constructor; [exact Hs | ].
      constructor. apply flt_false_fle; assumption.
Qed.

Lemma std_sort64_sorted (l : list double) :
  Forall (fun y => is_nan y = false) l ->
  Sorted (fun a b => fle a b = true) (std_sort l).
Proof.
  induction 1 as [ | x l Hx Hl IH]; simpl.
  - constructor.
  - apply sort64_insert_sorted; [exact Hx | | exact IH].
    apply (Permutation_Forall (Permutation_sym (std_sort64_perm l))).
    exact Hl.
Qed.

Lemma std_min_size_t_is_min (a b : Z) : std_min_size_t a b = Z.min a b.
Proof. unfold std_min_size_t. destruct (Z.ltb_spec b a); lia. Qed.

(** With two samples or more and defined casts, the percentile of the
    source is the percentile of the words. *)
Lemma calculatePercentile64_refines (sorted : list double) (p : double) :
  is_size_t (Z.of_nat (length sorted)) ->
  (2 <= Z.of_nat (length sorted) ->
   index_defined (Z.of_nat (length sorted)) p = true) ->
  calculatePercentile sorted p = percentile_spec sorted p.
Proof.
  intros Hn Hidx.
  destruct sorted as [ | x [ | y rest]]; [reflexivity | reflexivity | ].
  unfold calculatePercentile, percentile_spec.
  remember (x :: y :: rest) as l eqn:El.
  remember (Z.of_nat (length l)) as n eqn:En.
  assert (Hn2 : 2 <= n) by (subst n l; simpl length; lia).
  destruct (Z.eqb_spec n 0) as [? | _]; [lia | ].
  destruct (Z.eqb_spec n 1) as [? | _]; [lia | ].
  specialize (Hidx Hn2). unfold index_defined in Hidx.
  apply andb_true_iff in Hidx. destruct Hidx as [Hfin Hc].
  apply Z.ltb_lt in Hc.
  assert (Hn1 : is_size_t (n - 1)) by (unfold is_size_t in *; lia).
  rewrite (size_t_small (n - 1) Hn1).
  unfold double_of_size_t.
  set (idx := fmul p (of_Z (n - 1))) in *.
  destruct (size_t_of_floor idx Hfin Hc) as [Ef Ec].
  pose proof (floorZ_ceilZ idx Hfin) as [F0 F1].
  rewrite Ef, Ec, !std_min_size_t_is_min.
  unfold clamp_index, interpolate.
  rewrite !(Z.max_r 0) by lia.
  reflexivity.
Qed.

(** For the two fractions of [calculateStats] and up to 600 samples,
    the capacity of the window that feeds the tracker, the casts are
    defined. *)
Lemma index_defined_600 (n : Z) :
  2 <= n <= 600 ->
  index_defined n (decimal 1 1000) = true
  /\ index_defined n (decimal 1 100) = true.
Proof.
  intros Hn.
  assert (H : forallb (fun k : nat =>
                index_defined (Z.of_nat k) (decimal 1 1000)
                && index_defined (Z.of_nat k) (decimal 1 100))
              (seq 2 599) = true) by (vm_compute; reflexivity).
  rewrite forallb_forall in H.
  specialize (H (Z.to_nat n)).
  rewrite Z2Nat.id in H by lia.
  apply andb_true_iff. apply H. apply in_seq. lia.
Qed.

Lemma calculateStats64_nonempty (samples : list double) (s : t) :
  samples <> [] ->
  m_stats (calculateStats samples s) =
    {| min := vector_at (std_sort samples) 0;
       max := vector_at (std_sort samples)
                (size_t (Z.of_nat (length (std_sort samples)) - 1));
       average := fdiv (accumulate (std_sort samples) zero)
                    (double_of_size_t (Z.of_nat (length (std_sort samples))));
       percentile01 := calculatePercentile (std_sort samples) (decimal 1 1000);
       percentile1 := calculatePercentile (std_sort samples) (decimal 1 100) |}.
Proof.
  intros Hne. destruct samples as [ | x l]; [congruence | reflexivity].
Qed.

(** The mean of a single sample is the sample. *)
Lemma single_average (x : double) :
  valid x = true -> is_nan x = false ->
  feq (fdiv (accumulate [x] zero) (double_of_size_t 1)) x = true.
Proof.
  intros Hv Hn. unfold accumulate, double_of_size_t.
  change (fold_left fadd [x] zero) with (fadd zero x).
  change (of_Z 1) with one.
  destruct (fadd_zero x) as [E | [-> E]]; rewrite E.
  - rewrite fdiv_one by exact Hv. apply feq_refl. exact Hn.
  - reflexivity.
Qed.

(** C4. [calculatePercentile] computes the percentile of the
    specification in double arithmetic: for [n >= 2] samples and a
    fraction [p] whose index [p * (n - 1)] is a number, not negative and
    below 2^53 (so that the casts of the source are defined), it is the
    interpolation [lo * (1 - w) + hi * w] between the samples at the
    floor and at the ceiling of the index, both within [0, n - 1], with
    [w] the index less its floor, and the sample itself where the two
    places coincide; it is 0.0 for no sample and the sample itself for a
    single one. [calculateStats] applies it, with [p = 0.001] and
    [p = 0.01], to the samples sorted ascending; an empty input zeroes
    the five fields, and a single sample is the minimum, the maximum and
    both percentiles, and equal to the mean when it is a number. The
    interpolation is rounded as the source rounds it: of four samples of
    60 the 1% low is the double just below 60, the 0.1% low is 60. *)
Theorem percentile_matches_reference :
  (forall (sorted : list double) (p : double),
     is_size_t (Z.of_nat (length sorted)) ->
     (2 <= Z.of_nat (length sorted) ->
      index_defined (Z.of_nat (length sorted)) p = true) ->
     calculatePercentile sorted p = percentile_spec sorted p) /\
  (forall p : double, calculatePercentile [] p = zero) /\
  (forall x p : double, calculatePercentile [x] p = x) /\
  (forall s : t, m_stats (calculateStats [] s) = mkStats zero zero zero zero zero) /\
  (forall (x : double) (s : t),
     min (m_stats (calculateStats [x] s)) = x /\
     max (m_stats (calculateStats [x] s)) = x /\
     percentile01 (m_stats (calculateStats [x] s)) = x /\
     percentile1 (m_stats (calculateStats [x] s)) = x /\
     (valid x = true -> is_nan x = false ->
      feq (average (m_stats (calculateStats [x] s))) x = true)) /\
  (forall (samples : list double) (s : t),
     samples <> [] -> Z.of_nat (length samples) <= 600 ->
     Permutation (std_sort samples) samples /\
     (Forall (fun x => is_nan x = false) samples ->
      Sorted (fun a b => fle a b = true) (std_sort samples)) /\
     percentile01 (m_stats (calculateStats samples s))
       = percentile_spec (std_sort samples) (decimal 1 1000) /\
     percentile1 (m_stats (calculateStats samples s))
       = percentile_spec (std_sort samples) (decimal 1 100)) /\
  (forall s : t,
     flt (percentile1
            (m_stats (calculateStats [of_Z 60; of_Z 60; of_Z 60; of_Z 60] s)))
         (of_Z 60) = true /\
     percentile01
       (m_stats (calculateStats [of_Z 60; of_Z 60; of_Z 60; of_Z 60] s))
     = of_Z 60).
Proof.
  split; [exact calculatePercentile64_refines | ].
  split; [reflexivity | ]. split; [reflexivity | ]. split; [reflexivity | ].
  split; [ | split; [ | intros s; split; vm_compute; reflexivity]].
  - intros x s. split; [reflexivity | ]. split; [reflexivity | ].
    split; [reflexivity | ]. split; [reflexivity | ].
    intros Hv Hn. apply single_average; assumption.
  - intros samples s Hne Hlen.
    split; [apply std_sort64_perm | ].
    split; [apply std_sort64_sorted | ].
    rewrite (calculateStats64_nonempty samples s Hne). simpl.
    assert (Hsz : is_size_t (Z.of_nat (length (std_sort samples)))).
    { rewrite std_sort64_length. unfold is_size_t, SIZE_WIDTH. lia. }
    split; apply calculatePercentile64_refines; try exact Hsz;
      rewrite std_sort64_length; intros H2;
      apply index_defined_600; lia.
Qed.

Lemma percentile_matches_reference_witness :
  is_size_t (Z.of_nat (length [of_Z 60; of_Z 60; of_Z 60; of_Z 60])) /\
  (2 <= Z.of_nat (length [of_Z 60; of_Z 60; of_Z 60; of_Z 60]) ->
   index_defined (Z.of_nat (length [of_Z 60; of_Z 60; of_Z 60; of_Z 60]))
     (decimal 1 100) = true) /\
  calculatePercentile [of_Z 60; of_Z 60; of_Z 60; of_Z 60] (decimal 1 100)
    = percentile_spec [of_Z 60; of_Z 60; of_Z 60; of_Z 60] (decimal 1 100).
Proof.
  assert (H1 : is_size_t
                 (Z.of_nat (length [of_Z 60; of_Z 60; of_Z 60; of_Z 60])))
    by (unfold is_size_t, SIZE_WIDTH; simpl; lia).
  assert (H2 : 2 <= Z.of_nat (length [of_Z 60; of_Z 60; of_Z 60; of_Z 60]) ->
               index_defined
                 (Z.of_nat (length [of_Z 60; of_Z 60; of_Z 60; of_Z 60]))
                 (decimal 1 100) = true)
    by (intros _; vm_compute; reflexivity).
  split; [exact H1 | ]. split; [exact H2 | ].
  apply (proj1 percentile_matches_reference
           [of_Z 60; of_Z 60; of_Z 60; of_Z 60] (decimal 1 100) H1 H2).
Defined.

End StatsTracker64Facts.

(** ** Facts about the drop test on binary64 doubles *)

Module DropDetector64Facts.
Import Stdlib.Floats.SpecFloat.
Import Binary64 Binary64Facts DropDetector64.
#[local] Open Scope Z_scope.

(** C5. [checkForDrop(current, average)] is false whenever
    [average < 10.0]; otherwise it is true exactly when
    [(average - current) / average * 100 >= thresholdPercent], the left
    side computed in double arithmetic as the source computes it. With a
    threshold of 15 and an average of 100, a current rate of 80 is a drop
    and a current rate of 90 is not. The rounding decides at the
    boundary: with a threshold of 29 and an average of 100, a current
    rate of 71 gives a left side just below 29, and no drop. *)
Theorem checkForDrop_law :
  (forall (cur avg : double) (d : t),
     flt avg (of_Z 10) = true -> checkForDrop cur avg d = false) /\
  (forall (cur avg : double) (d : t),
     flt avg (of_Z 10) = false ->
     (checkForDrop cur avg d = true
      <-> fge (fmul (fdiv (fsub avg cur) avg) (of_Z 100))
              (m_thresholdPercent d) = true)) /\
  (forall now : time_point,
     checkForDrop (of_Z 80) (of_Z 100) (create now (of_Z 15)) = true /\
     checkForDrop (of_Z 90) (of_Z 100) (create now (of_Z 15)) = false) /\
  (forall d : t,
     checkForDrop (of_Z 80) (of_Z 100) (setThreshold (of_Z 15) d) = true /\
     checkForDrop (of_Z 90) (of_Z 100) (setThreshold (of_Z 15) d) = false) /\
  (forall d : t,
     m_thresholdPercent (setThreshold (of_Z 29) d) = of_Z 29 /\
     flt (fmul (fdiv (fsub (of_Z 100) (of_Z 71)) (of_Z 100)) (of_Z 100))
         (of_Z 29) = true /\
     checkForDrop (of_Z 71) (of_Z 100) (setThreshold (of_Z 29) d) = false).
Proof.
  split; [ | split; [ | split; [ | split]]].
  - intros cur avg d Havg. unfold checkForDrop. rewrite Havg. reflexivity.
  - intros cur avg d Havg. unfold checkForDrop. rewrite Havg. reflexivity.
  - intros now. split; vm_compute; reflexivity.
  - intros d. split; vm_compute; reflexivity.
  - intros d. split; [ | split]; vm_compute; reflexivity.
Qed.

Lemma checkForDrop_law_witness :
  flt (of_Z 5) (of_Z 10) = true /\
  checkForDrop (of_Z 1) (of_Z 5) (create 0 (of_Z 15)) = false.
Proof.
  split; [reflexivity | ].
  apply (proj1 checkForDrop_law (of_Z 1) (of_Z 5) (create 0%Z (of_Z 15))).
  reflexivity.
Defined.

(** X32. [setThreshold] stores a number between 5.0 and 50.0 whatever
    double it is given, a NaN included (which stores 5.0), and a value
    between 5.0 and 50.0 is stored as it is. *)
Theorem setThreshold_clamps_every_double (p : double) (d : t) :
  is_nan (m_thresholdPercent (setThreshold p d)) = false /\
  fle (of_Z 5) (m_thresholdPercent (setThreshold p d)) = true /\
  fle (m_thresholdPercent (setThreshold p d)) (of_Z 50) = true /\
  m_thresholdPercent (setThreshold S754_nan d) = of_Z 5 /\
  (fle (of_Z 5) p = true -> fle p (of_Z 50) = true ->
   feq (m_thresholdPercent (setThreshold p d)) p = true).
Proof.
  destruct (clamp_numbers (of_Z 5) (of_Z 50) p) as (H1 & H2 & H3);
    try reflexivity.
  split; [exact H1 | ]. split; [exact H2 | ]. split; [exact H3 | ].
  split; [reflexivity | ].
  intros Hl Hh. apply clamp_keeps; assumption.
Qed.

Lemma setThreshold_clamps_every_double_witness :
  fle (of_Z 5) (of_Z 29) = true /\ fle (of_Z 29) (of_Z 50) = true /\
  feq (m_thresholdPercent (setThreshold (of_Z 29) (create 0 (of_Z 15))))
      (of_Z 29) = true.
Proof.
  split; [reflexivity | ]. split; [reflexivity | ].
  apply (proj2 (proj2 (proj2 (proj2
           (setThreshold_clamps_every_double (of_Z 29)
              (create 0%Z (of_Z 15))))))); reflexivity.
Defined.

End DropDetector64Facts.
